(** * zfs-killsnaps: a shallow embedding of the ZFS snapshot cleanup tool

    The development follows [zfs-killsnaps/zfs-killsnaps.py].

    - Text is a sequence of code points below 256 (Rocq's [string]); the
      operations of Python's [str], [re] and [datetime] that the script
      calls are written out for that range and for the C locale.
    - The external [zfs] tool, the clock, the YAML parser, the
      availability of [mail] and the file system's answers (which file a
      path names, whether a path can be opened for writing) are the
      environment of a run.  The tool and the clock may answer differently
      as the run goes on: they see the trace of what happened before.
    - The functions of the script thread a world (the files that exist, the
      log records, the trace of external actions) and may raise; opening
      the log file and creating the lock marker raise when the operating
      system refuses.
    - A configuration maps keys to strings or to a map from pattern names
      to day counts; a YAML document is empty or such a mapping. *)

From Stdlib Require Import ZArith Lia Ascii String.
From stdpp Require Import gmap strings list fin_maps pretty.

Local Open Scope string_scope.
Local Open Scope list_scope.
Local Open Scope Z_scope.

(** ** Python [str] operations used by the script *)

Module Str.

Definition code (c : ascii) : nat := nat_of_ascii c.

Definition between (lo hi : nat) (c : ascii) : bool :=
  (lo <=? code c)%nat && (code c <=? hi)%nat.

(** [str.isspace] on one code point: the characters [str.strip] removes
    and the regular-expression class [\s] accepts. *)
Definition is_space (c : ascii) : bool :=
  between 9 13 c || between 28 32 c
  || (code c =? 133)%nat || (code c =? 160)%nat.

(** [\d]: the decimal digits. *)
Definition is_digit (c : ascii) : bool := between 48 57 c.

(** The line boundaries of [str.splitlines], a lone carriage return
    included; carriage return followed by line feed is one boundary. *)
Definition is_linebreak (c : ascii) : bool :=
  between 10 13 c || between 28 30 c || (code c =? 133)%nat.

Definition is_cr (c : ascii) : bool := (code c =? 13)%nat.
Definition is_lf (c : ascii) : bool := (code c =? 10)%nat.
Definition is_tab (c : ascii) : bool := (code c =? 9)%nat.

(** [str.lower] on the letters of the ASCII alphabet. *)
Definition lower_char (c : ascii) : ascii :=
  if between 65 90 c then ascii_of_nat (code c + 32) else c.

Fixpoint lower (s : string) : string :=
  match s with
  | EmptyString => EmptyString
  | String c s' => String (lower_char c) (lower s')
  end.

Fixpoint lstrip (s : string) : string :=
  match s with
  | EmptyString => EmptyString
  | String c s' => if is_space c then lstrip s' else s
  end.

Fixpoint rstrip (s : string) : string :=
  match s with
  | EmptyString => EmptyString
  | String c s' =>
      match rstrip s' with
      | EmptyString => if is_space c then EmptyString else String c EmptyString
      | r => String c r
      end
  end.

(** [s.strip()] *)
Definition strip (s : string) : string := rstrip (lstrip s).

(** [s.startswith(p)] *)
Fixpoint startswith (s p : string) : bool :=
  match p, s with
  | EmptyString, _ => true
  | String a p', String b s' => if Ascii.eqb a b then startswith s' p' else false
  | String _ _, EmptyString => false
  end.

(** [p in s] *)
Fixpoint contains (p s : string) : bool :=
  startswith s p
  || match s with
     | EmptyString => false
     | String _ s' => contains p s'
     end.

(** [s.splitlines()]: [cur] holds the current line, reversed. *)
Fixpoint splitlines_go (cur s : string) : list string :=
  match s with
  | EmptyString =>
      match cur with
      | EmptyString => []
      | _ => [String.rev cur]
      end
  | String c s' =>
      if is_cr c then
        match s' with
        | String c2 s'' =>
            if is_lf c2 then String.rev cur :: splitlines_go EmptyString s''
            else String.rev cur :: splitlines_go EmptyString s'
        | EmptyString => [String.rev cur]
        end
      else if is_linebreak c then String.rev cur :: splitlines_go EmptyString s'
      else splitlines_go (String c cur) s'
  end.

Definition splitlines (s : string) : list string := splitlines_go EmptyString s.

(** [s.split('\t')[0]] *)
Fixpoint first_field (s : string) : string :=
  match s with
  | EmptyString => EmptyString
  | String c s' => if is_tab c then EmptyString else String c (first_field s')
  end.

(** [int(s)] on a string of decimal digits with surrounding white space;
    [None] is Python's [ValueError]. *)
Fixpoint digits_value (acc : Z) (s : string) : option Z :=
  match s with
  | EmptyString => Some acc
  | String c s' =>
      if is_digit c then digits_value (10 * acc + Z.of_nat (code c - 48)) s'
      else None
  end.

Definition int (s : string) : option Z :=
  match strip s with
  | EmptyString => None
  | t => digits_value 0 t
  end.

End Str.

(** ** The fragment of Python's [re] that [datetime.strptime] compiles to *)

Module Re.

Inductive regex : Type :=
| Eps                                   (* the empty pattern *)
| Cls (p : ascii → bool)                (* one character of a class *)
| Cat (r1 r2 : regex)                   (* r1 r2 *)
| Alt (r1 r2 : regex)                   (* r1|r2, the left one first *)
| Plus (p : ascii → bool)               (* [p]+, greedy *)
| Group (name : ascii) (r : regex).     (* (?P<name>r) *)

Definition groups : Type := list (ascii * string).

(** What a pattern consumed, given the input before it and the rest after it. *)
Fixpoint consumed (s : string) (n : nat) : string :=
  match n, s with
  | S n', String c s' => String c (consumed s' n')
  | _, _ => EmptyString
  end.

Section Matcher.
Context {R : Type}.

(** One or more characters of the class, the longest run first; every
    shorter run is tried when the continuation fails. *)
Fixpoint plus_from (p : ascii → bool) (s : string)
    (k : string → option R) : option R :=
  match s with
  | EmptyString => None
  | String c s' =>
      if p c then
        match plus_from p s' k with
        | Some r => Some r
        | None => k s'
        end
      else None
  end.

(** Backtracking match of [r] at the start of [s]; [k] is the rest of
    the pattern and gets the remaining input and the groups so far. *)
Fixpoint run (r : regex) (s : string) (g : groups)
    (k : string → groups → option R) : option R :=
  match r with
  | Eps => k s g
  | Cls p =>
      match s with
      | String c s' => if p c then k s' g else None
      | EmptyString => None
      end
  | Cat r1 r2 => run r1 s g (λ s1 g1, run r2 s1 g1 k)
  | Alt r1 r2 =>
      match run r1 s g k with
      | Some x => Some x
      | None => run r2 s g k
      end
  | Plus p => plus_from p s (λ s', k s' g)
  | Group name r1 =>
      run r1 s g (λ s1 g1,
        k s1 ((name, consumed s (String.length s - String.length s1)) :: g1))
  end.
End Matcher.

(** [pattern.match(s)]: the first match in backtracking order, as the
    unmatched rest of [s] and the named groups. *)
Definition rmatch (r : regex) (s : string) : option (string * groups) :=
  run r s [] (λ rest g, Some (rest, g)).

Fixpoint group (name : ascii) (g : groups) : option string :=
  match g with
  | [] => None
  | (n, v) :: g' => if Ascii.eqb n name then Some v else group name g'
  end.

(** A literal character under [re.IGNORECASE]. *)
Definition lit_ci (c : ascii) : regex :=
  Cls (λ x, Ascii.eqb (Str.lower_char x) (Str.lower_char c)).

Fixpoint word_ci (s : string) : regex :=
  match s with
  | EmptyString => Eps
  | String c EmptyString => lit_ci c
  | String c s' => Cat (lit_ci c) (word_ci s')
  end.

(** ['|'.join(words)] *)
Fixpoint any_of (ws : list string) : regex :=
  match ws with
  | [] => Eps
  | [w] => word_ci w
  | w :: ws' => Alt (word_ci w) (any_of ws')
  end.

Definition digit : regex := Cls Str.is_digit.
Definition range (lo hi : ascii) : regex :=
  Cls (Str.between (Str.code lo) (Str.code hi)).
Definition chr (c : ascii) : regex := Cls (Ascii.eqb c).
Definition spaces : regex := Plus Str.is_space.

End Re.

(** ** Python's naive [datetime]: fields, ordinals, subtraction, [strptime] *)

Module Datetime.

Record datetime : Type := mk_datetime {
  year : Z; month : Z; day : Z;
  hour : Z; minute : Z; second : Z; microsecond : Z
}.

(** [year % 4 == 0 and (year % 100 != 0 or year % 400 == 0)] *)
Definition is_leap (y : Z) : bool :=
  (y mod 4 =? 0) && (negb (y mod 100 =? 0) || (y mod 400 =? 0)).

Definition days_before_year (y : Z) : Z :=
  let y1 := y - 1 in
  y1 * 365 + y1 / 4 - y1 / 100 + y1 / 400.

Definition DAYS_IN_MONTH : list Z :=
  [-1; 31; 28; 31; 30; 31; 30; 31; 31; 30; 31; 30; 31].

Definition DAYS_BEFORE_MONTH : list Z :=
  [-1; 0; 31; 59; 90; 120; 151; 181; 212; 243; 273; 304; 334].

Definition days_in_month (y m : Z) : Z :=
  if (m =? 2) && is_leap y then 29
  else nth (Z.to_nat m) DAYS_IN_MONTH 0.

Definition days_before_month (y m : Z) : Z :=
  nth (Z.to_nat m) DAYS_BEFORE_MONTH 0
  + (if (2 <? m) && is_leap y then 1 else 0).

Definition ymd2ord (y m d : Z) : Z :=
  days_before_year y + days_before_month y m + d.

Definition toordinal (t : datetime) : Z := ymd2ord (year t) (month t) (day t).

(** The range checks of the [date] constructor. *)
Definition check_date_fields (y m d : Z) : bool :=
  (1 <=? y) && (y <=? 9999) && (1 <=? m) && (m <=? 12)
  && (1 <=? d) && (d <=? days_in_month y m).

(** [timedelta(days, seconds, microseconds)] on integers, normalised
    the way the constructor does it with [divmod]. *)
Record timedelta : Type := mk_timedelta { days : Z; seconds : Z; microseconds : Z }.

Definition new_timedelta (days0 seconds0 microseconds0 : Z) : timedelta :=
  let d := days0 in
  let d := d + seconds0 / 86400 in
  let s := seconds0 mod 86400 in
  let seconds1 := microseconds0 / 1000000 in
  let microseconds1 := microseconds0 mod 1000000 in
  let d := d + seconds1 / 86400 in
  let s := s + seconds1 mod 86400 in
  let s := s + microseconds1 / 1000000 in
  let us := microseconds1 mod 1000000 in
  let d := d + s / 86400 in
  let s := s mod 86400 in
  mk_timedelta d s us.

(** [a - b] for two naive datetimes. *)
Definition sub (a b : datetime) : timedelta :=
  let secs1 := second a + minute a * 60 + hour a * 3600 in
  let secs2 := second b + minute b * 60 + hour b * 3600 in
  new_timedelta (toordinal a - toordinal b) (secs1 - secs2)
    (microsecond a - microsecond b).

(** The C-locale name tables of [_strptime.LocaleTime]. *)
Definition a_weekday : list string :=
  ["mon"; "tue"; "wed"; "thu"; "fri"; "sat"; "sun"].
Definition a_month : list string :=
  [""; "jan"; "feb"; "mar"; "apr"; "may"; "jun";
   "jul"; "aug"; "sep"; "oct"; "nov"; "dec"].

(** [l.index(x)] *)
Fixpoint index_of (x : string) (l : list string) : option Z :=
  match l with
  | [] => None
  | y :: l' => if String.eqb y x then Some 0 else Z.succ <$> index_of x l'
  end.

Import Re.

(** The directives of [_strptime.TimeRE] that the format uses. *)
Definition re_a : regex := Group "a" (any_of a_weekday).
Definition re_b : regex := Group "b" (any_of (tail a_month)).
(** [3[0-1]|[1-2]\d|0[1-9]|[1-9]| [1-9]] *)
Definition re_d : regex :=
  Group "d"
    (Alt (Cat (chr "3") (range "0" "1"))
    (Alt (Cat (range "1" "2") digit)
    (Alt (Cat (chr "0") (range "1" "9"))
    (Alt (range "1" "9")
         (Cat (chr " ") (range "1" "9")))))).
(** [2[0-3]|[0-1]\d|\d] *)
Definition re_H : regex :=
  Group "H"
    (Alt (Cat (chr "2") (range "0" "3"))
    (Alt (Cat (range "0" "1") digit)
         digit)).
(** [[0-5]\d|\d] *)
Definition re_M : regex :=
  Group "M" (Alt (Cat (range "0" "5") digit) digit).
(** [\d\d\d\d] *)
Definition re_Y : regex :=
  Group "Y" (Cat digit (Cat digit (Cat digit digit))).

(** The compiled form of ["%a %b %d %H:%M %Y"]: every run of white space
    of the format is [\s+]. *)
Definition creation_format : regex :=
  Cat re_a (Cat spaces (Cat re_b (Cat spaces (Cat re_d (Cat spaces
  (Cat re_H (Cat (chr ":") (Cat re_M (Cat spaces re_Y))))))))).

(** [datetime.strptime(s, "%a %b %d %H:%M %Y")]; [None] stands for the
    [ValueError] of a string that does not match, of unconverted data
    after the match, and of a day that the month does not have. *)
Definition strptime (s : string) : option datetime :=
  '(rest, g) ← rmatch creation_format s;
  if String.eqb rest "" then
    y ← group "Y" g ≫= Str.int;
    m ← group "b" g ≫= (λ b, index_of (Str.lower b) a_month);
    d ← group "d" g ≫= Str.int;
    hh ← group "H" g ≫= Str.int;
    mm ← group "M" g ≫= Str.int;
    _ ← group "a" g ≫= (λ a, index_of (Str.lower a) a_weekday);
    if check_date_fields y m d
    then Some (mk_datetime y m d hh mm 0 0)
    else None
  else None.

End Datetime.

(** ** Worlds, outcomes and the environment of a run *)

Inductive level : Type := INFO | WARNING | ERROR.

(** What [subprocess.run] reports for one command. *)
Record cmdres : Type := mk_cmdres {
  stdout : string; stderr : string; returncode : Z
}.

(** The actions of a run that the outside can observe, in order. *)
Inductive event : Type :=
| EvCmd (cmd : string) (res : cmdres)       (* a shell command and what it returned *)
| EvCreate (path : string)                  (* the lock marker written *)
| EvRemove (path : string)                  (* the lock marker removed *)
| EvMail (recipient logfile : string).      (* the log file mailed to the recipient *)

Record world : Type := mk_world {
  w_files : gset string;                    (* the files that exist *)
  w_log : list (level * string);            (* the records logged so far *)
  w_trace : list event
}.

(** The values of a configuration: a string, or a map from pattern names
    to day counts. *)
Inductive value : Type :=
| VStr (s : string)
| VDict (d : gmap string Z).

(** What [yaml.safe_load] returns for a configuration file: nothing for an
    empty document, or a mapping. *)
Inductive yaml_doc : Type :=
| DocNone
| DocMap (m : gmap string value).

(** Why the operating system refuses to open a file for writing: a
    directory of the path is missing, the directory or the file is not
    writable, the path names a directory, or another reason (a read-only
    file system, a name that is too long). *)
Inductive oserror : Type := ENOENT | EACCES | EISDIR | EOTHER.

Record Env : Type := mk_env {
  (** the external tool: the result of a command, given all that happened before *)
  ext_tool : list event → string → cmdres;
  (** [datetime.now()], given all that happened before *)
  clock : list event → Datetime.datetime;
  (** [yaml.safe_load] of the file at a path; [None] is a parse error *)
  yaml_safe_load : string → option yaml_doc;
  (** [shutil.which("mail")] finds a mailer *)
  which_mail : bool;
  (** the file that a non-empty path names: two spellings of one file
      resolve alike *)
  resolve : string → string;
  (** opening a non-empty path for writing or appending: [None] when the
      operating system grants it, the refusal otherwise *)
  open_error : string → option oserror
}.

Inductive exn : Type :=
| SystemExit (status : Z)
| ValueError
| FileNotFoundError
| PermissionError
| IsADirectoryError
| OSError
| YAMLError
| KeyError
| TypeError
| AttributeError.

Inductive outcome (A : Type) : Type :=
| Ok (a : A)
| Raise (e : exn).
Arguments Ok {A} a.
Arguments Raise {A} e.

(** A computation of the script: from a world to an outcome and a world. *)
Definition M (A : Type) : Type := world → outcome A * world.

Definition ret {A} (a : A) : M A := λ w, (Ok a, w).

Definition raise {A} (e : exn) : M A := λ w, (Raise e, w).

Definition bind {A B} (c : M A) (k : A → M B) : M B :=
  λ w, match c w with
       | (Ok a, w1) => k a w1
       | (Raise e, w1) => (Raise e, w1)
       end.

Notation "x <- c ;; k" := (bind c (λ x, k))
  (at level 20, c at level 99, k at level 200, only parsing).
Notation "' pat <- c ;; k" := (bind c (λ x, match x with pat => k end))
  (at level 20, pat pattern, c at level 99, k at level 200, only parsing).
Notation "c ;; k" := (bind c (λ _, k))
  (at level 100, k at level 200, right associativity, only parsing).

(** [try: body finally: fin]: [fin] runs whatever [body] did; what [body]
    raised is raised again afterwards, unless [fin] raises itself. *)
Definition try_finally {A} (body : M A) (fin : M unit) : M A :=
  λ w, let '(r, w1) := body w in
       match fin w1 with
       | (Ok _, w2) => (r, w2)
       | (Raise e, w2) => (Raise e, w2)
       end.

(** The exit status of the process for the outcome of the script. *)
Definition exit_status {A} (o : outcome A) : Z :=
  match o with
  | Ok _ => 0
  | Raise (SystemExit n) => n
  | Raise _ => 1
  end.

Definition sys_exit {A} (n : Z) : M A := raise (SystemExit n).

Definition emit (e : event) : M unit :=
  λ w, (Ok tt, mk_world (w_files w) (w_log w) (w_trace w ++ [e])).

(** [logging.info], [logging.warning], [logging.error] *)
Definition logging (l : level) (msg : string) : M unit :=
  λ w, (Ok tt, mk_world (w_files w) (w_log w ++ [(l, msg)]) (w_trace w)).

(** The exception that [open] raises for a refusal. *)
Definition exn_of_oserror (err : oserror) : exn :=
  match err with
  | ENOENT => FileNotFoundError
  | EACCES => PermissionError
  | EISDIR => IsADirectoryError
  | EOTHER => OSError
  end.

(** [bool(v)]: the empty string and the empty mapping are false. *)
Definition truthy (v : value) : bool :=
  match v with
  | VStr s => negb (String.eqb s "")
  | VDict d => negb (bool_decide (d = ∅))
  end.

(** Opening a path for writing or appending: the empty path names no
    file, for the others the operating system decides. *)
Definition open_for_writing (E : Env) (p : string) : option oserror :=
  if String.eqb p "" then Some ENOENT else open_error E p.

(** The path names one of the files; the empty path names none. *)
Definition file_at (E : Env) (p : string) (files : gset string) : bool :=
  negb (String.eqb p "") && bool_decide (resolve E p ∈ files).

(** [logging.basicConfig(filename=filename, ...)]: with a filename that is
    not false the log file is opened for appending at once, which creates
    it, and the call raises what [open] raises; with the empty string or
    the empty mapping the records go to the standard error stream and no
    file is touched. *)
Definition logging_basicConfig (E : Env) (filename : value) : M unit :=
  if truthy filename then
    match filename with
    | VStr path =>
        λ w, match open_for_writing E path with
             | Some err => (Raise (exn_of_oserror err), w)
             | None =>
                 (Ok tt, mk_world ({[resolve E path]} ∪ w_files w) (w_log w) (w_trace w))
             end
    | VDict _ => raise TypeError
    end
  else ret tt.

Definition os_path_exists (E : Env) (path : value) : M bool :=
  match path with
  | VStr p => λ w, (Ok (file_at E p (w_files w)), w)
  | VDict _ => raise TypeError
  end.

(** [open(path, 'w').close()] *)
Definition open_w_close (E : Env) (path : value) : M unit :=
  match path with
  | VStr p =>
      λ w, match open_for_writing E p with
           | Some err => (Raise (exn_of_oserror err), w)
           | None =>
               (Ok tt, mk_world ({[resolve E p]} ∪ w_files w) (w_log w)
                         (w_trace w ++ [EvCreate p]))
           end
  | VDict _ => raise TypeError
  end.

(** [os.remove(path)] *)
Definition os_remove (E : Env) (path : value) : M unit :=
  match path with
  | VStr p =>
      λ w, if file_at E p (w_files w)
           then (Ok tt, mk_world (w_files w ∖ {[resolve E p]}) (w_log w)
                          (w_trace w ++ [EvRemove p]))
           else (Raise FileNotFoundError, w)
  | VDict _ => raise TypeError
  end.

(** [d[key]] *)
Definition getitem (d : gmap string value) (key : string) : M value :=
  match d !! key with
  | Some v => ret v
  | None => raise KeyError
  end.

(** [data or {}] *)
Definition or_empty (data : yaml_doc) : gmap string value :=
  match data with
  | DocNone => ∅
  | DocMap m => m
  end.

(** [d.update(upd)] on a copy of [d] *)
Definition dict_update (d upd : gmap string value) : gmap string value := upd ∪ d.

(** ** The script *)

Definition DEFAULT_CONFIG_PATH : string := "/etc/zfs-killsnaps.yaml".

Definition DEFAULT_POLICIES : gmap string Z :=
  <["daily" := 7]> (<["weekly" := 30]> (<["monthly" := 90]> (<["autosnap" := 14]> ∅))).

Definition DEFAULT_CONFIG : gmap string value :=
  <["logfile" := VStr "/var/log/zfs-killsnaps.log"]>
  (<["lockfile" := VStr "/var/run/zfs-killsnaps.lock"]>
  (<["email_recipient" := VStr "admin@example.com"]>
  (<["retention_policies" := VDict DEFAULT_POLICIES]> ∅))).

(** The parsed command line. *)
Record Args : Type := mk_args {
  pattern : string;
  age : option Z;
  recursive : bool;
  dry_run : bool;
  pool : option string;
  config : string
}.

(** [not pool] *)
Definition not_pool (pool : option string) : bool :=
  match pool with
  | None => true
  | Some p => String.eqb p ""
  end.

(** The test of [load_snapshots] on one identifier. *)
Definition keeps (pattern : string) (pool : option string) (name : string) : bool :=
  Str.contains pattern name
  && (not_pool pool
      || Str.startswith name (default "" pool +:+ "@")
      || Str.startswith name (default "" pool +:+ "/")).

Definition list_cmd : string := "zfs list -H -t snapshot".
Definition creation_cmd (snapshot : string) : string :=
  "zfs get -H -o value creation " +:+ snapshot.
Definition destroy_cmd (recursive : bool) (snap : string) : string :=
  "zfs destroy " +:+ (if recursive then "-r" else "") +:+ " " +:+ snap.

(** [for x in xs: acc = body(x, acc)] *)
Fixpoint for_each {A B} (body : A → B → M B) (xs : list A) (acc : B) : M B :=
  match xs with
  | [] => ret acc
  | x :: xs' => acc' <- body x acc ;; for_each body xs' acc'
  end.

Section Script.

Variable E : Env.

Definition load_config (path : string) : M (gmap string value) :=
  ex <- os_path_exists E (VStr path) ;;
  if negb ex then ret DEFAULT_CONFIG
  else
    match yaml_safe_load E path with
    | None => raise YAMLError
    | Some data =>
        let config := DEFAULT_CONFIG in
        ret (dict_update config (or_empty data))
    end.

Definition run_cmd (cmd : string) : M (string * string * Z) :=
  λ w, let result := ext_tool E (w_trace w) cmd in
       (Ok (Str.strip (stdout result), Str.strip (stderr result), returncode result),
        mk_world (w_files w) (w_log w) (w_trace w ++ [EvCmd cmd result])).

Definition parse_creation_date (date_str : string) : M Datetime.datetime :=
  match Datetime.strptime date_str with
  | Some t => ret t
  | None => raise ValueError
  end.

Definition datetime_now : M Datetime.datetime :=
  λ w, (Ok (clock E (w_trace w)), w).

Definition is_older_than (creation_str : string) (days : Z) : M bool :=
  creation_time <- parse_creation_date creation_str ;;
  now <- datetime_now ;;
  ret (days <=? Datetime.days (Datetime.sub now creation_time)).

Definition load_snapshots (pattern : string) (pool : option string)
    : M (list string) :=
  '(out, err, code) <- run_cmd list_cmd ;;
  if negb (code =? 0) then
    logging ERROR ("Failed to list snapshots: " +:+ err) ;;
    sys_exit 1
  else
    let lines := Str.splitlines out in
    ret (fold_left
           (λ snapshots line,
              let name := Str.first_field line in
              if keeps pattern pool name then snapshots ++ [name] else snapshots)
           lines []).

(** [None] is Python's [None]. *)
Definition get_snapshot_creation (snapshot : string) : M (option string) :=
  '(out, err, code) <- run_cmd (creation_cmd snapshot) ;;
  if negb (code =? 0) then
    logging WARNING
      ("Could not get creation time for " +:+ snapshot +:+ ": " +:+ err) ;;
    ret None
  else ret (Some out).

Definition send_email (logfile recipient : value) : M unit :=
  if which_mail E then
    ex <- os_path_exists E logfile ;;
    if ex then
      match logfile, recipient with
      | VStr path, VStr r => emit (EvMail r path)
      | _, _ => raise TypeError
      end
    else ret tt
  else ret tt.

(** The handle that [lock_or_exit] returns: [lambda: os.remove(lockfile)]. *)
Definition release (lockfile : value) : M unit := os_remove E lockfile.

Definition lock_or_exit (lockfile : value) : M (M unit) :=
  ex <- os_path_exists E lockfile ;;
  if ex then
    logging ERROR "Lock file exists. Script already running." ;;
    sys_exit 1
  else
    open_w_close E lockfile ;;
    ret (release lockfile).

Definition get_policy_age (pattern : string) (policies : value) : M Z :=
  match policies with
  | VDict d => ret (default 0 (d !! pattern))
  | VStr _ => raise AttributeError
  end.

(** One turn of the loop over the snapshots; the result is the counter
    [destroyed] after the turn. *)
Definition cleanup_step (age_days : Z) (recursive dry_run : bool)
    (snap : string) (destroyed : Z) : M Z :=
  creation_str <- get_snapshot_creation snap ;;
  skip <- match creation_str with
          | None => ret true
          | Some s =>
              if String.eqb s "" then ret true
              else older <- is_older_than s age_days ;; ret (negb older)
          end ;;
  if skip : bool then ret destroyed
  else
    let s := default "" creation_str in
    logging INFO ("Found snapshot: " +:+ snap +:+ " (created " +:+ s +:+ ")") ;;
    if dry_run then
      logging INFO ("[Dry-run] Would destroy " +:+ snap) ;;
      ret destroyed
    else
      '(_, err, code) <- run_cmd (destroy_cmd recursive snap) ;;
      if code =? 0 then
        logging INFO ("Destroyed: " +:+ snap) ;;
        ret (destroyed + 1)
      else
        logging ERROR ("Failed to destroy " +:+ snap +:+ ": " +:+ err) ;;
        ret destroyed.

(** The second half of [cleanup_snapshots]: the counter, the loop over
    the snapshots and the report of the total. *)
Definition destroy_snapshots (age_days : Z) (recursive dry_run : bool)
    (snapshots : list string) : M unit :=
  destroyed <- for_each (cleanup_step age_days recursive dry_run) snapshots 0 ;;
  logging INFO ("Total snapshots destroyed: " +:+ pretty destroyed).

Definition cleanup_snapshots (pattern : string) (age_days : Z)
    (recursive dry_run : bool) (pool : option string)
    (config : gmap string value) : M unit :=
  snapshots <- load_snapshots pattern pool ;;
  match snapshots with
  | [] => logging INFO ("No snapshots matching '" +:+ pattern +:+ "' found.")
  | _ => destroy_snapshots age_days recursive dry_run snapshots
  end.

(** [args.age or get_policy_age(args.pattern, config['retention_policies'])] *)
Definition age_or_policy (args : Args) (config : gmap string value) : M Z :=
  match age args with
  | Some a =>
      if negb (a =? 0) then ret a
      else policies <- getitem config "retention_policies" ;;
           get_policy_age (pattern args) policies
  | None =>
      policies <- getitem config "retention_policies" ;;
      get_policy_age (pattern args) policies
  end.

(** The body of the script, after the command line is parsed; [int(age_days)]
    is the identity on the integers that [age_or_policy] returns. *)
Definition main (args : Args) : M unit :=
  cfg <- load_config (config args) ;;
  logfile <- getitem cfg "logfile" ;;
  logging_basicConfig E logfile ;;
  lockfile <- getitem cfg "lockfile" ;;
  unlock <- lock_or_exit lockfile ;;
  try_finally
    (age_days <- age_or_policy args cfg ;;
     cleanup_snapshots (pattern args) age_days (recursive args) (dry_run args)
       (pool args) cfg)
    (unlock ;;
     logfile <- getitem cfg "logfile" ;;
     email_recipient <- getitem cfg "email_recipient" ;;
     send_email logfile email_recipient).

End Script.

(** ** The words of the specification, as definitions *)

(** [p] occurs in [s]. *)
Definition substring_of (p s : string) : Prop := ∃ a b, s = a +:+ p +:+ b.

(** [s] starts with [p]. *)
Definition str_prefix (p s : string) : Prop := ∃ b, s = p +:+ b.

(** The identifiers of a listing: the first tab-delimited field of every line. *)
Definition identifiers (out : string) : list string :=
  Str.first_field <$> Str.splitlines out.

(** The name portion of an identifier: what follows its first [@]. *)
Fixpoint name_portion (s : string) : string :=
  match s with
  | EmptyString => EmptyString
  | String c s' => if Ascii.eqb c "@" then s' else name_portion s'
  end.

(** The instant of a datetime, in microseconds since the start of ordinal 0. *)
Definition micros (t : Datetime.datetime) : Z :=
  ((Datetime.toordinal t * 86400
    + Datetime.hour t * 3600 + Datetime.minute t * 60 + Datetime.second t)
   * 1000000) + Datetime.microsecond t.

Definition DAY : Z := 86400 * 1000000.

(** Elapsed whole days: floor((now - creation) in days). *)
Definition elapsed_days (now creation : Datetime.datetime) : Z :=
  (micros now - micros creation) / DAY.

(** A destroy invocation of the external tool, and a successful one. *)
Definition is_destroy (e : event) : bool :=
  match e with
  | EvCmd cmd _ => Str.startswith cmd "zfs destroy "
  | _ => false
  end.

Definition is_destroyed (e : event) : bool :=
  match e with
  | EvCmd cmd res => Str.startswith cmd "zfs destroy " && (returncode res =? 0)
  | _ => false
  end.

(** A snapshot is eligible when the tool reports a creation time for it
    that parses and lies at least [age_days] whole days before now; [tr] is
    the trace at the moment the snapshot is looked at. *)
Definition eligible (E : Env) (age_days : Z) (snap : string) (tr : list event) : bool :=
  let res := ext_tool E tr (creation_cmd snap) in
  (returncode res =? 0)
  && match Datetime.strptime (Str.strip (stdout res)) with
     | Some t =>
         age_days <=? elapsed_days (clock E (tr ++ [EvCmd (creation_cmd snap) res])) t
     | None => false
     end.

(** The successful destroy invocations in a list of events. *)
Definition count_destroyed (evs : list event) : Z :=
  Z.of_nat (length (List.filter is_destroyed evs)).

(** The records of the destroyer. *)
Definition would_destroy (snap : string) : level * string :=
  (INFO, "[Dry-run] Would destroy " +:+ snap).
Definition total_destroyed (n : Z) : level * string :=
  (INFO, "Total snapshots destroyed: " +:+ pretty n).

(** The age of a snapshot can be evaluated: the fetch fails, or gives
    nothing, or gives a string that parses. *)
Definition evaluable (E : Env) (snap : string) (tr : list event) : bool :=
  let res := ext_tool E tr (creation_cmd snap) in
  negb (returncode res =? 0)
  || String.eqb (Str.strip (stdout res)) ""
  || bool_decide (is_Some (Datetime.strptime (Str.strip (stdout res)))).

(** The events and records that a computation adds: the world only grows. *)
Definition grows (w w' : world) (evs : list event) (logs : list (level * string)) : Prop :=
  w_files w' = w_files w ∧ w_trace w' = w_trace w ++ evs ∧ w_log w' = w_log w ++ logs.

(** ** Concrete environments, for running the script on examples *)

Definition ok (out : string) : cmdres := mk_cmdres out "" 0.
Definition failed (err : string) : cmdres := mk_cmdres "" err 1.

(** A tool that answers from a table of commands, whatever happened before. *)
Definition table_tool (tbl : list (string * cmdres)) (dflt : cmdres)
    : list event → string → cmdres :=
  λ _ cmd, default dflt (snd <$> List.find (λ e, String.eqb (fst e) cmd) tbl).

(** A clock that stands at 13 February 2025, 03:00. *)
Definition at_3am : list event → Datetime.datetime :=
  λ _, Datetime.mk_datetime 2025 2 13 3 0 0 0.

Definition no_config : string → option yaml_doc := λ _, Some DocNone.

Definition TAB : string := String (ascii_of_nat 9) "".
Definition NL : string := String (ascii_of_nat 10) "".

(** A line of [zfs list -H -t snapshot]. *)
Definition listing_line (snap : string) : string :=
  snap +:+ TAB +:+ "0B" +:+ TAB +:+ "-" +:+ TAB +:+ "96K" +:+ TAB +:+ "-" +:+ NL.

Definition lock_path : string := "/var/run/zfs-killsnaps.lock".
Definition log_path : string := "/var/log/zfs-killsnaps.log".

(** Worlds: nothing on disk; a configuration file on disk; a lock marker on disk. *)
Definition w0 : world := mk_world ∅ [] [].
Definition w_configured : world := mk_world {[DEFAULT_CONFIG_PATH]} [] [].
Definition w_locked : world := mk_world {[lock_path]} [] [].

(** An environment in which every path names its own file and every file
    can be opened for writing. *)
Definition plain_env (tool : list event → string → cmdres)
    (now : list event → Datetime.datetime)
    (yaml : string → option yaml_doc) (mail : bool) : Env :=
  mk_env tool now yaml mail (λ p, p) (λ _, None).

Definition args_weekly : Args :=
  mk_args "weekly" None false false None DEFAULT_CONFIG_PATH.
Definition args_hourly : Args :=
  mk_args "hourly" None false false None DEFAULT_CONFIG_PATH.

(** A listing with a dataset whose own name contains the pattern. *)
Definition listing_mixed : string :=
  listing_line "tank@weekly-1" +:+ listing_line "tank/weekly@daily-1"
  +:+ listing_line "tank/home@weekly-2" +:+ listing_line "backup@weekly-3".

Definition env_mixed : Env :=
  plain_env (table_tool [(list_cmd, ok listing_mixed)] (failed "no such command"))
    at_3am no_config false.

(** An override that sets one policy and the recipient. *)
Definition override_partial_map : gmap string value :=
  <["retention_policies" := VDict (<["hourly" := 2]> ∅)]>
    (<["email_recipient" := VStr "ops@example.org"]> ∅).

Definition override_partial : yaml_doc := DocMap override_partial_map.

Definition env_override : Env :=
  plain_env (table_tool [] (failed "no pools available")) at_3am
    (λ _, Some override_partial) false.

(** A configuration file that does not parse. *)
Definition env_bad_yaml : Env :=
  plain_env (table_tool [] (ok "")) at_3am (λ _, None) true.

(** A tool that fails on every command. *)
Definition env_no_pool : Env :=
  plain_env (table_tool [] (failed "cannot open 'tank': no such pool"))
    at_3am no_config true.

(** The scenario of the specification: pattern [weekly], 30 days, three
    snapshots that are 10, 30 and 45 days old. *)
Definition snap_10 : string := "tank@weekly-2025-02-03".
Definition snap_30 : string := "tank@weekly-2025-01-14".
Definition snap_45 : string := "tank@weekly-2024-12-30".

Definition snaps_scenario : list string := [snap_10; snap_30; snap_45].

Definition listing_scenario : string :=
  listing_line snap_10 +:+ listing_line snap_30 +:+ listing_line snap_45.

Definition env_scenario : Env :=
  plain_env
    (table_tool
       [(list_cmd, ok listing_scenario);
        (creation_cmd snap_10, ok ("Mon Feb  3 03:00 2025" +:+ NL));
        (creation_cmd snap_30, ok ("Tue Jan 14 03:00 2025" +:+ NL));
        (creation_cmd snap_45, ok ("Mon Dec 30 03:00 2024" +:+ NL))]
       (ok ""))
    at_3am no_config true.

Definition run_dry : outcome unit * world :=
  destroy_snapshots env_scenario 30 false true snaps_scenario w0.

Definition run_live : outcome unit * world :=
  cleanup_snapshots env_scenario "weekly" 30 false false None DEFAULT_CONFIG w0.

Definition run_locked : outcome unit * world := main env_scenario args_weekly w_locked.

(** A listing in which nothing matches the pattern. *)
Definition env_no_match : Env :=
  plain_env (table_tool [(list_cmd, ok (listing_line "tank@daily-2025-02-12"))] (ok ""))
    at_3am no_config true.

Definition run_no_match : outcome unit * world :=
  cleanup_snapshots env_no_match "weekly" 30 false false None DEFAULT_CONFIG w0.

(** The scenario on a host whose tool prints German day and month names. *)
Definition env_german : Env :=
  plain_env
    (table_tool
       [(list_cmd, ok listing_scenario);
        (creation_cmd snap_10, ok ("Mo Feb  3 03:00 2025" +:+ NL));
        (creation_cmd snap_30, ok ("Di Jan 14 03:00 2025" +:+ NL));
        (creation_cmd snap_45, ok ("Mo Dez 30 03:00 2024" +:+ NL))]
       (ok ""))
    at_3am no_config true.

Definition run_german : outcome unit * world := main env_german args_weekly w0.

(** ** Further definitions, for the properties beyond the claims *)

(** The keys that the script reads from its configuration. *)
Definition REQUIRED_KEYS : list string :=
  ["logfile"; "lockfile"; "email_recipient"; "retention_policies"].

(** The part of [main] inside [try]: the threshold, then the cleanup. *)
Definition pipeline (E : Env) (args : Args) (cfg : gmap string value) : M unit :=
  age_days <- age_or_policy args cfg ;;
  cleanup_snapshots E (pattern args) age_days (recursive args) (dry_run args)
    (pool args) cfg.

(** Every character of [s] passes [P]. *)
Fixpoint all_chars (P : ascii → bool) (s : string) : bool :=
  match s with
  | EmptyString => true
  | String c s' => P c && all_chars P s'
  end.

(** An identifier as the tool prints it: not empty, no white space. *)
Definition clean (s : string) : bool :=
  negb (String.eqb s "") && all_chars (λ c, negb (Str.is_space c)) s.

(** The other fields of a listing row: anything without a line break. *)
Definition one_line (s : string) : bool :=
  all_chars (λ c, negb (Str.is_linebreak c)) s.

(** The output of [zfs list -H]: a row per snapshot, the identifier, a tab,
    the other fields, a line feed. *)
Fixpoint render_listing (rows : list (string * string)) : string :=
  match rows with
  | [] => ""
  | (snap, rest) :: rows' =>
      snap +:+ TAB +:+ rest +:+ NL +:+ render_listing rows'
  end.

(** A configuration whose policies are not a mapping. *)
Definition override_bad_policies : yaml_doc :=
  DocMap (<["retention_policies" := VStr "30"]> ∅).

Definition env_bad_policies : Env :=
  plain_env (table_tool [(list_cmd, ok listing_scenario)] (ok "")) at_3am
    (λ _, Some override_bad_policies) true.

(** The scenario with a tool that refuses to destroy the oldest snapshot. *)
Definition env_busy : Env :=
  plain_env
    (table_tool
       [(list_cmd, ok listing_scenario);
        (creation_cmd snap_10, ok ("Mon Feb  3 03:00 2025" +:+ NL));
        (creation_cmd snap_30, ok ("Tue Jan 14 03:00 2025" +:+ NL));
        (creation_cmd snap_45, ok ("Mon Dec 30 03:00 2024" +:+ NL));
        (destroy_cmd false snap_45, failed "dataset is busy")]
       (ok ""))
    at_3am no_config true.

(** A tool that prints nothing but white space. *)
Definition env_blank : Env :=
  plain_env (table_tool [] (ok (NL +:+ " " +:+ NL))) at_3am no_config true.

Definition args_dry : Args :=
  mk_args "weekly" None false true None DEFAULT_CONFIG_PATH.

Definition rows_scenario : list (string * string) :=
  [(snap_10, "0B" +:+ TAB +:+ "-"); (snap_30, ""); (snap_45, "8K ")].

(** Runs with that tool: the loop, the destroyer, the cleanup. *)
Definition loop_busy : outcome Z * world :=
  for_each (cleanup_step env_busy 30 false false) snaps_scenario 0 w0.

(** The destroy invocations in a list of events, successful or not. *)
Definition count_destroy (evs : list event) : Z :=
  Z.of_nat (length (List.filter is_destroy evs)).

(** Every destroy invocation among [evs], the events after the trace [tr0],
    comes right after the creation query of the same snapshot, one of
    [snaps], and that snapshot was eligible when it was looked at. *)
Definition justified (E : Env) (age_days : Z) (recursive : bool)
    (snaps : list string) (tr0 evs : list event) : Prop :=
  ∀ pre cmd res post,
    evs = pre ++ EvCmd cmd res :: post →
    is_destroy (EvCmd cmd res) = true →
    ∃ pre' snap,
      pre = pre' ++ [EvCmd (creation_cmd snap) (ext_tool E (tr0 ++ pre') (creation_cmd snap))]
      ∧ cmd = destroy_cmd recursive snap
      ∧ snap ∈ snaps
      ∧ eligible E age_days snap (tr0 ++ pre') = true.

Definition run_busy : outcome unit * world :=
  cleanup_snapshots env_busy "weekly" 30 false false None DEFAULT_CONFIG w0.

Definition destroy_busy : outcome unit * world :=
  destroy_snapshots env_busy 30 false false snaps_scenario w0.

(** A host where the directory of the lock marker is not writable. *)
Definition env_readonly : Env :=
  mk_env (table_tool [(list_cmd, ok listing_scenario)] (ok "")) at_3am no_config true
    (λ p, p)
    (λ p, if String.eqb p lock_path then Some EACCES else None).

(** A host where the directory of the log file is missing. *)
Definition env_no_logdir : Env :=
  mk_env (table_tool [(list_cmd, ok listing_scenario)] (ok "")) at_3am no_config true
    (λ p, p)
    (λ p, if String.eqb p log_path then Some ENOENT else None).

(** A host where the log file has a second spelling, and a configuration
    file that names that spelling as the lock marker. *)
Definition log_path_respelled : string := "/var/log//zfs-killsnaps.log".

Definition env_alias : Env :=
  mk_env (table_tool [(list_cmd, ok listing_scenario)] (ok "")) at_3am
    (λ _, Some (DocMap (<["lockfile" := VStr log_path_respelled]> ∅))) true
    (λ p, if String.eqb p log_path_respelled then log_path else p)
    (λ _, None).

(** A configuration file that sets the log file to the empty string. *)
Definition env_stderr : Env :=
  plain_env (table_tool [(list_cmd, ok "")] (ok "")) at_3am
    (λ _, Some (DocMap (<["logfile" := VStr ""]> ∅))) true.

Definition w_scenario_locked : world :=
  mk_world ({[lock_path]} ∪ ({[log_path]} ∪ ∅)) [] [EvCreate lock_path].

(** Nothing that [w'] adds to the trace of [w] is a destroy invocation. *)
Definition quiet (w w' : world) : Prop :=
  ∃ evs, w_trace w' = w_trace w ++ evs ∧ List.filter is_destroy evs = [].

(** A computation stays within a relation on worlds, whatever its outcome. *)
Definition respects {A} (R : world → world → Prop) (c : M A) : Prop :=
  ∀ w r w', c w = (r, w') → R w w'.

(** A row of the listing that the enumerator reads back. *)
Definition row_ok (row : string * string) : bool :=
  clean (fst row) && one_line (snd row).

Definition env_rows : Env :=
  plain_env (table_tool [(list_cmd, ok (render_listing rows_scenario))] (ok ""))
    at_3am no_config true.

(** The exceptions that leave the script: never [KeyError], and
    [SystemExit] only with status 1. *)
Definition expected (e : exn) : Prop :=
  e ≠ KeyError ∧ ∀ n, e = SystemExit n → n = 1.

(** A computation raises nothing but what [Q] allows. *)
Definition raises_only {A} (Q : exn → Prop) (c : M A) : Prop :=
  ∀ w e w', c w = (Raise e, w') → Q e.

(** The first and the last character of a string. *)
Definition head_char (s : string) : option ascii :=
  match s with
  | EmptyString => None
  | String c _ => Some c
  end.

Fixpoint last_char (s : string) : option ascii :=
  match s with
  | EmptyString => None
  | String c EmptyString => Some c
  | String _ s' => last_char s'
  end.

Definition not_space (o : option ascii) : bool :=
  match o with
  | Some c => negb (Str.is_space c)
  | None => true
  end.

(** A string with no white space at either end. *)
Definition trimmed (s : string) : bool :=
  not_space (head_char s) && not_space (last_char s).

(** * Properties *)

(** ** Strings *)

Lemma app_cons (c : ascii) (s t : string) : String c s +:+ t = String c (s +:+ t).
Proof. reflexivity. Qed.

Lemma startswith_prefix_of (s p : string) :
  Str.startswith s p = true ↔ str_prefix p s.
Proof.
  unfold str_prefix. revert s. induction p as [|a p IH]; intros s.
  - split; [intros _; exists s; reflexivity | intros _; by destruct s].
  - destruct s as [|b s]; simpl.
    + split; [discriminate | intros [t Ht]; discriminate Ht].
    + destruct (Ascii.eqb a b) eqn:Hab.
      * apply Ascii.eqb_eq in Hab as ->. rewrite IH. split.
        -- intros [t ->]. exists t. reflexivity.
        -- intros [t Ht]. rewrite app_cons in Ht. injection Ht as ->. eauto.
      * apply Ascii.eqb_neq in Hab. split; [discriminate |].
        intros [t Ht]. rewrite app_cons in Ht. injection Ht as ? ?. congruence.
Qed.

Lemma contains_substring_of (p s : string) :
  Str.contains p s = true ↔ substring_of p s.
Proof.
  unfold substring_of. induction s as [|c s IH].
  - change (Str.contains p "") with (Str.startswith "" p || false).
    rewrite orb_false_r, startswith_prefix_of. split.
    + intros [t Ht]. exists "", t. exact Ht.
    + intros [a [b Hab]]. destruct a; [exists b; exact Hab | discriminate Hab].
  - change (Str.contains p (String c s))
      with (Str.startswith (String c s) p || Str.contains p s).
    rewrite orb_true_iff, IH, startswith_prefix_of. split.
    + intros [[t Ht] | [a [b Hab]]].
      * exists "", t. exact Ht.
      * exists (String c a), b. rewrite app_cons. congruence.
    + intros [a [b Hab]]. destruct a as [|c' a].
      * left. exists b. exact Hab.
      * right. rewrite app_cons in Hab. injection Hab as _ ->. eauto.
Qed.

(** The loop of [load_snapshots] builds the filtered list, in order. *)
Lemma load_snapshots_loop (pattern : string) (pool : option string)
    (lines acc : list string) :
  fold_left
    (λ snapshots line,
       let name := Str.first_field line in
       if keeps pattern pool name then snapshots ++ [name] else snapshots)
    lines acc
  = acc ++ List.filter (keeps pattern pool) (Str.first_field <$> lines).
Proof.
  revert acc. induction lines as [|line lines IH]; intros acc; simpl.
  - by rewrite app_nil_r.
  - rewrite IH. destruct (keeps pattern pool (Str.first_field line)); [|done].
    by rewrite <- app_assoc.
Qed.

Lemma not_pool_spec (pool : option string) :
  not_pool pool = true ↔ pool = None ∨ pool = Some "".
Proof.
  destruct pool as [p|]; simpl.
  - rewrite String.eqb_eq. split; [intros ->; by right | intros [?| [= ->]]; done].
  - split; [by left | done].
Qed.

(** The test of the enumerator, in the words of the specification. *)
Lemma keeps_spec (pattern : string) (pool : option string) (X : string) :
  keeps pattern pool X = true ↔
    substring_of pattern X
    ∧ (pool = None ∨ pool = Some ""
       ∨ ∃ p, pool = Some p ∧ (str_prefix (p +:+ "@") X ∨ str_prefix (p +:+ "/") X)).
Proof.
  unfold keeps.
  rewrite andb_true_iff, !orb_true_iff, contains_substring_of, not_pool_spec,
    !startswith_prefix_of.
  split; intros [Hs Hp]; split; try exact Hs.
  - destruct Hp as [[[-> | ->] | H] | H]; auto; destruct pool as [p|]; simpl in H;
      eauto 6.
  - destruct Hp as [-> | [-> | [p [-> H]]]]; simpl; tauto.
Qed.

(** ** The enumerator *)

(** A listing that succeeds is filtered, and nothing but the trace changes. *)
Lemma load_snapshots_ok (E : Env) (pattern : string) (pool : option string) (w : world) :
  let res := ext_tool E (w_trace w) list_cmd in
  returncode res = 0 →
  load_snapshots E pattern pool w
  = (Ok (List.filter (keeps pattern pool) (identifiers (Str.strip (stdout res)))),
     mk_world (w_files w) (w_log w) (w_trace w ++ [EvCmd list_cmd res])).
Proof.
  intros res Hcode. unfold load_snapshots, bind, run_cmd.
  fold res. rewrite Hcode. simpl. unfold ret.
  by rewrite load_snapshots_loop.
Qed.

(** A listing that fails is fatal: an error is logged and the script exits
    with status 1. *)
Lemma load_snapshots_failed (E : Env) (pattern : string) (pool : option string) (w : world) :
  let res := ext_tool E (w_trace w) list_cmd in
  returncode res ≠ 0 →
  load_snapshots E pattern pool w
  = (Raise (SystemExit 1),
     mk_world (w_files w)
       (w_log w ++ [(ERROR, "Failed to list snapshots: " +:+ Str.strip (stderr res))])
       (w_trace w ++ [EvCmd list_cmd res])).
Proof.
  intros res Hcode. unfold load_snapshots, bind, run_cmd. fold res.
  apply Z.eqb_neq in Hcode. rewrite Hcode. reflexivity.
Qed.

(** C2, as amended: when the listing succeeds, the enumerator returns the
    identifiers of the listing (the first tab-delimited field of each line)
    that contain the pattern anywhere in the identifier and, when a
    non-empty pool is given, start with the pool followed by [@] or [/]; an
    identifier is in the result if and only if it is in the listing and
    passes that test, and the result keeps the order of the listing. *)
Theorem C2_load_snapshots_filters_identifiers
    (E : Env) (pattern : string) (pool : option string) (w : world) :
  let res := ext_tool E (w_trace w) list_cmd in
  let ids := identifiers (Str.strip (stdout res)) in
  returncode res = 0 →
  ∃ l w',
    load_snapshots E pattern pool w = (Ok l, w')
    ∧ l = List.filter (keeps pattern pool) ids
    ∧ l `sublist_of` ids
    ∧ ∀ X, X ∈ l ↔
        X ∈ ids
        ∧ substring_of pattern X
        ∧ (pool = None ∨ pool = Some ""
           ∨ ∃ p, pool = Some p
                  ∧ (str_prefix (p +:+ "@") X ∨ str_prefix (p +:+ "/") X)).
Proof.
  intros res ids Hcode. eexists _, _. split; [by apply load_snapshots_ok|].
  fold res ids. split; [reflexivity|]. split.
  - induction ids as [|X ids IH]; simpl; [constructor|].
    destruct (keeps pattern pool X); by constructor.
  - intros X. rewrite !list_elem_of_In, filter_In, keeps_spec. tauto.
Qed.

Example load_snapshots_tank :
  fst (load_snapshots env_mixed "weekly" (Some "tank") w0)
  = Ok ["tank@weekly-1"; "tank/weekly@daily-1"; "tank/home@weekly-2"].
Proof. vm_compute. reflexivity. Qed.

Lemma C2_load_snapshots_filters_identifiers_witness :
  ∃ l w',
    load_snapshots env_mixed "weekly" (Some "tank") w0 = (Ok l, w')
    ∧ l = List.filter (keeps "weekly" (Some "tank"))
            (identifiers (Str.strip listing_mixed))
    ∧ l `sublist_of` identifiers (Str.strip listing_mixed)
    ∧ ∀ X, X ∈ l ↔
        X ∈ identifiers (Str.strip listing_mixed)
        ∧ substring_of "weekly" X
        ∧ (Some "tank" = None ∨ Some "tank" = Some ""
           ∨ ∃ p, Some "tank" = Some p
                  ∧ (str_prefix (p +:+ "@") X ∨ str_prefix (p +:+ "/") X)).
Proof.
  apply (C2_load_snapshots_filters_identifiers env_mixed "weekly" (Some "tank") w0).
  reflexivity.
Defined.

(** C2 as stated fails: with pattern [weekly] and no pool, the enumerator
    returns [tank/weekly@daily-1], whose name portion [daily-1] does not
    contain the pattern. *)
Lemma C2_counterexample :
  ¬ (∀ X l w',
       load_snapshots env_mixed "weekly" None w0 = (Ok l, w') →
       (X ∈ l ↔
          X ∈ identifiers (Str.strip listing_mixed)
          ∧ substring_of "weekly" (name_portion X)
          ∧ (@None string = None
             ∨ ∃ p, @None string = Some p
                    ∧ (str_prefix (p +:+ "@") X ∨ str_prefix (p +:+ "/") X)))).
Proof.
  intros H.
  destruct (load_snapshots env_mixed "weekly" None w0) as [r w'] eqn:Hrun.
  assert (Hr : r = Ok ["tank@weekly-1"; "tank/weekly@daily-1";
                       "tank/home@weekly-2"; "backup@weekly-3"]).
  { apply (f_equal fst) in Hrun. vm_compute in Hrun. by subst r. }
  subst r.
  destruct (H "tank/weekly@daily-1" _ _ eq_refl) as [Hin _].
  destruct Hin as (_ & Hsub & _).
  - apply list_elem_of_In. simpl. tauto.
  - apply contains_substring_of in Hsub. vm_compute in Hsub. discriminate.
Qed.

(** ** The configuration loader *)

Lemma file_at_true (E : Env) (p : string) (files : gset string) :
  file_at E p files = true ↔ p ≠ "" ∧ resolve E p ∈ files.
Proof.
  unfold file_at. rewrite andb_true_iff, negb_true_iff, String.eqb_neq, bool_decide_eq_true.
  done.
Qed.

Lemma file_at_false (E : Env) (p : string) (files : gset string) :
  resolve E p ∉ files → file_at E p files = false.
Proof.
  intros Hout. apply not_true_is_false. rewrite file_at_true. tauto.
Qed.

Lemma open_for_writing_granted (E : Env) (p : string) :
  open_for_writing E p = None → p ≠ "" ∧ open_error E p = None.
Proof.
  unfold open_for_writing. destruct (String.eqb_spec p ""); [discriminate | done].
Qed.

Lemma load_config_missing (E : Env) (path : string) (w : world) :
  file_at E path (w_files w) = false → load_config E path w = (Ok DEFAULT_CONFIG, w).
Proof.
  intros Hno. unfold load_config, bind, os_path_exists. by rewrite Hno.
Qed.

Lemma load_config_parse_error (E : Env) (path : string) (w : world) :
  file_at E path (w_files w) = true → yaml_safe_load E path = None →
  load_config E path w = (Raise YAMLError, w).
Proof.
  intros Hin Hy. unfold load_config, bind, os_path_exists.
  rewrite Hin. simpl. by rewrite Hy.
Qed.

Lemma load_config_override (E : Env) (path : string) (w : world) (data : yaml_doc) :
  file_at E path (w_files w) = true → yaml_safe_load E path = Some data →
  load_config E path w = (Ok (dict_update DEFAULT_CONFIG (or_empty data)), w).
Proof.
  intros Hin Hy. unfold load_config, bind, os_path_exists.
  rewrite Hin. simpl. by rewrite Hy.
Qed.

Lemma dict_update_lookup (d upd : gmap string value) (k : string) :
  dict_update d upd !! k
  = match upd !! k with
    | Some v => Some v
    | None => d !! k
    end.
Proof.
  unfold dict_update. rewrite lookup_union.
  destruct (upd !! k), (d !! k); reflexivity.
Qed.

(** C5: when the configuration file exists and holds the mapping [m], the
    loaded configuration has, for every top-level key, the value that [m]
    gives the key, and the built-in default for a key that [m] does not
    have; a mapping that sets [retention_policies] to a map yields exactly
    that map as the policy map, so a pattern that the file leaves out has
    no policy entry, whatever the defaults say; an empty document leaves
    every default in place. *)
Theorem C5_load_config_shallow_merge (E : Env) (path : string) (w : world) :
  file_at E path (w_files w) = true →
  (∀ m, yaml_safe_load E path = Some (DocMap m) →
     ∃ cfg,
       load_config E path w = (Ok cfg, w)
       ∧ (∀ k v, m !! k = Some v → cfg !! k = Some v)
       ∧ (∀ k, m !! k = None → cfg !! k = DEFAULT_CONFIG !! k)
       ∧ (∀ d, m !! "retention_policies" = Some (VDict d) →
               cfg !! "retention_policies" = Some (VDict d)
               ∧ ∀ p w1, get_policy_age p (VDict d) w1
                         = (Ok (default 0 (d !! p)), w1)))
  ∧ (yaml_safe_load E path = Some DocNone →
     load_config E path w = (Ok DEFAULT_CONFIG, w)).
Proof.
  intros Hin. split.
  - intros m Hy. exists (dict_update DEFAULT_CONFIG m).
    split; [by rewrite (load_config_override E path w (DocMap m))|].
    split; [|split].
    + intros k v Hk. by rewrite dict_update_lookup, Hk.
    + intros k Hk. by rewrite dict_update_lookup, Hk.
    + intros d Hd. split; [|reflexivity].
      by rewrite dict_update_lookup, Hd.
  - intros Hy. rewrite (load_config_override E path w DocNone) by done.
    unfold dict_update, or_empty. by rewrite (left_id_L ∅ (∪)).
Qed.

(** With the override that sets the recipient and one policy, the loaded
    configuration has the recipient and the policy map of the file, no
    policy for [weekly], and the default log file. *)
Lemma C5_load_config_shallow_merge_witness :
  ∃ cfg,
    load_config env_override DEFAULT_CONFIG_PATH w_configured = (Ok cfg, w_configured)
    ∧ cfg !! "email_recipient" = Some (VStr "ops@example.org")
    ∧ cfg !! "retention_policies" = Some (VDict (<["hourly" := 2]> ∅))
    ∧ get_policy_age "weekly" (VDict (<["hourly" := 2]> ∅)) w0 = (Ok 0, w0)
    ∧ get_policy_age "hourly" (VDict (<["hourly" := 2]> ∅)) w0 = (Ok 2, w0)
    ∧ cfg !! "logfile" = Some (VStr "/var/log/zfs-killsnaps.log").
Proof.
  destruct (C5_load_config_shallow_merge env_override DEFAULT_CONFIG_PATH w_configured)
    as [Hmap _].
  - vm_compute. reflexivity.
  - destruct (Hmap override_partial_map eq_refl) as (cfg & Hload & Hset & Hunset & Hpol).
    exists cfg. split; [exact Hload|].
    split; [apply Hset; reflexivity|].
    destruct (Hpol (<["hourly" := 2]> ∅) eq_refl) as [Hp Hget].
    split; [exact Hp|].
    split; [apply (Hget "weekly" w0)|].
    split; [apply (Hget "hourly" w0)|].
    rewrite Hunset by reflexivity. reflexivity.
Defined.

(** ** The age check *)

(** The day count of a normalised [timedelta] is the floor of the whole
    duration in days. *)
Lemma new_timedelta_days (d s us : Z) :
  Datetime.days (Datetime.new_timedelta d s us)
  = (d * DAY + s * 1000000 + us) / DAY.
Proof.
  unfold Datetime.new_timedelta, DAY. simpl Datetime.days.
  set (B := us / 1000000). set (r := us mod 1000000).
  assert (Hus : us = 1000000 * B + r) by (apply Z.div_mod; lia).
  assert (Hr : 0 ≤ r < 1000000) by (apply Z.mod_pos_bound; lia).
  rewrite (Z.div_small r 1000000) by lia. rewrite Z.add_0_r.
  set (a1 := s / 86400). set (a2 := s mod 86400).
  set (b1 := B / 86400). set (b2 := B mod 86400).
  assert (Hs : s = 86400 * a1 + a2) by (apply Z.div_mod; lia).
  assert (Ha2 : 0 ≤ a2 < 86400) by (apply Z.mod_pos_bound; lia).
  assert (HB : B = 86400 * b1 + b2) by (apply Z.div_mod; lia).
  assert (Hb2 : 0 ≤ b2 < 86400) by (apply Z.mod_pos_bound; lia).
  set (c1 := (a2 + b2) / 86400). set (c2 := (a2 + b2) mod 86400).
  assert (Hc : a2 + b2 = 86400 * c1 + c2) by (apply Z.div_mod; lia).
  assert (Hc2 : 0 ≤ c2 < 86400) by (apply Z.mod_pos_bound; lia).
  apply Z.div_unique with (r := c2 * 1000000 + r); lia.
Qed.

(** Subtracting two datetimes and reading [.days] gives the elapsed whole days. *)
Lemma sub_days (now t : Datetime.datetime) :
  Datetime.days (Datetime.sub now t) = elapsed_days now t.
Proof.
  unfold Datetime.sub. rewrite new_timedelta_days.
  unfold elapsed_days, micros. f_equal. unfold DAY. lia.
Qed.

Lemma is_older_than_parsed (E : Env) (s : string) (t : Datetime.datetime)
    (N : Z) (w : world) :
  Datetime.strptime s = Some t →
  is_older_than E s N w = (Ok (N <=? elapsed_days (clock E (w_trace w)) t), w).
Proof.
  intros Hp. unfold is_older_than, bind, parse_creation_date, datetime_now.
  rewrite Hp. unfold ret. by rewrite sub_days.
Qed.

Lemma is_older_than_unparsed (E : Env) (s : string) (N : Z) (w : world) :
  Datetime.strptime s = None →
  is_older_than E s N w = (Raise ValueError, w).
Proof.
  intros Hp. unfold is_older_than, bind, parse_creation_date. by rewrite Hp.
Qed.

(** C6: for a creation string that parses to the timestamp [t] and a
    threshold [N], the age check returns true exactly when the elapsed whole
    days, floor((now - t) in days), are at least [N]; when [t] lies exactly
    [N] days before now, it returns true for [N] and false for [N + 1]. *)
Theorem C6_is_older_than_floor_days
    (E : Env) (s : string) (t : Datetime.datetime) (N : Z) (w : world) :
  Datetime.strptime s = Some t →
  let now := clock E (w_trace w) in
  (∃ b, is_older_than E s N w = (Ok b, w)
        ∧ (b = true ↔ N ≤ (micros now - micros t) / DAY))
  ∧ (micros now - micros t = N * DAY →
     is_older_than E s N w = (Ok true, w)
     ∧ is_older_than E s (N + 1) w = (Ok false, w)).
Proof.
  intros Hp now. split.
  - eexists. split; [by apply is_older_than_parsed|].
    fold now. unfold elapsed_days. apply Z.leb_le.
  - intros Hexact. rewrite !(is_older_than_parsed E s t) by done. fold now.
    unfold elapsed_days. rewrite Hexact, Z.div_mul by (unfold DAY; lia).
    split; do 2 f_equal; [apply Z.leb_le | apply Z.leb_gt]; lia.
Qed.

Lemma C6_is_older_than_floor_days_witness :
  let s := "Tue Jan 14 03:00 2025" in
  let t := Datetime.mk_datetime 2025 1 14 3 0 0 0 in
  let now := Datetime.mk_datetime 2025 2 13 3 0 0 0 in
  Datetime.strptime s = Some t
  ∧ micros now - micros t = 30 * DAY
  ∧ is_older_than env_no_pool s 30 w0 = (Ok true, w0)
  ∧ is_older_than env_no_pool s 31 w0 = (Ok false, w0).
Proof.
  intros s t now.
  assert (Hp : Datetime.strptime s = Some t) by (vm_compute; reflexivity).
  assert (Hd : micros now - micros t = 30 * DAY) by (vm_compute; reflexivity).
  split; [exact Hp|]. split; [exact Hd|].
  exact (proj2 (C6_is_older_than_floor_days env_no_pool s t 30 w0 Hp) Hd).
Defined.

(** A snapshot made 29 days, 23 hours and 59 minutes ago is not yet 30 days old. *)
Example is_older_than_just_short :
  is_older_than env_no_pool "Tue Jan 14 03:01 2025" 30 w0 = (Ok false, w0)
  ∧ is_older_than env_no_pool "Tue Jan 14 03:01 2025" 29 w0 = (Ok true, w0).
Proof. split; vm_compute; reflexivity. Qed.

(** ** The retention threshold *)

Lemma age_or_policy_override (args : Args) (cfg : gmap string value)
    (a : Z) (w : world) :
  age args = Some a → a ≠ 0 → age_or_policy args cfg w = (Ok a, w).
Proof.
  intros Ha Hnz. unfold age_or_policy. rewrite Ha.
  apply Z.eqb_neq in Hnz. by rewrite Hnz.
Qed.

Lemma age_or_policy_lookup (args : Args) (cfg : gmap string value)
    (d : gmap string Z) (w : world) :
  age args = None ∨ age args = Some 0 →
  cfg !! "retention_policies" = Some (VDict d) →
  age_or_policy args cfg w = (Ok (default 0 (d !! pattern args)), w).
Proof.
  intros Ha Hd. unfold age_or_policy, bind, getitem.
  destruct Ha as [-> | ->]; simpl; by rewrite Hd.
Qed.

(** C4, at the failing input: with [--age 0] and the default configuration
    the threshold for the pattern [weekly] is the policy's 30 days, not the
    0 days of the flag. *)
Theorem C4_age_zero_uses_policy (w : world) :
  age_or_policy (mk_args "weekly" (Some 0) false false None DEFAULT_CONFIG_PATH)
    DEFAULT_CONFIG w
  = (Ok 30, w).
Proof. reflexivity. Qed.

(** C10: when the pattern has no entry in the policy map and no [--age] is
    given, the threshold is 0 days, and then a snapshot whose creation time
    parses and is not after now passes the age check and is eligible. *)
Theorem C10_unknown_pattern_zero_days
    (E : Env) (args : Args) (cfg : gmap string value) (d : gmap string Z) (w : world) :
  age args = None →
  cfg !! "retention_policies" = Some (VDict d) →
  d !! pattern args = None →
  age_or_policy args cfg w = (Ok 0, w)
  ∧ (∀ s t w1,
       Datetime.strptime s = Some t →
       micros t ≤ micros (clock E (w_trace w1)) →
       is_older_than E s 0 w1 = (Ok true, w1))
  ∧ (∀ snap tr t,
       let res := ext_tool E tr (creation_cmd snap) in
       returncode res = 0 →
       Datetime.strptime (Str.strip (stdout res)) = Some t →
       micros t ≤ micros (clock E (tr ++ [EvCmd (creation_cmd snap) res])) →
       eligible E 0 snap tr = true).
Proof.
  intros Ha Hd Hno. split; [|split].
  - rewrite (age_or_policy_lookup args cfg d) by auto. by rewrite Hno.
  - intros s t w1 Hp Hle. rewrite (is_older_than_parsed E s t) by done.
    do 2 f_equal. apply Z.leb_le. unfold elapsed_days.
    apply Z.div_pos; [lia | unfold DAY; lia].
  - intros snap tr t res Hcode Hp Hle. unfold eligible. fold res.
    rewrite Hcode, Hp. simpl. apply Z.leb_le. unfold elapsed_days.
    apply Z.div_pos; [lia | unfold DAY; lia].
Qed.

(** ** The loop over the snapshots *)

Lemma get_snapshot_creation_unfold (E : Env) (snap : string) (w : world) :
  get_snapshot_creation E snap w
  = let res := ext_tool E (w_trace w) (creation_cmd snap) in
    let tr1 := w_trace w ++ [EvCmd (creation_cmd snap) res] in
    if negb (returncode res =? 0) then
      (Ok None, mk_world (w_files w)
                  (w_log w ++ [(WARNING, "Could not get creation time for " +:+ snap
                                         +:+ ": " +:+ Str.strip (stderr res))])
                  tr1)
    else (Ok (Some (Str.strip (stdout res))), mk_world (w_files w) (w_log w) tr1).
Proof.
  cbv zeta. unfold get_snapshot_creation, bind, run_cmd.
  by destruct (returncode _ =? 0).
Qed.

(** One turn, case by case. *)
Lemma cleanup_step_unfold (E : Env) (age_days : Z) (recursive dry_run : bool)
    (snap : string) (n : Z) (w : world) :
  cleanup_step E age_days recursive dry_run snap n w
  = let res := ext_tool E (w_trace w) (creation_cmd snap) in
    let tr1 := w_trace w ++ [EvCmd (creation_cmd snap) res] in
    let out := Str.strip (stdout res) in
    if negb (returncode res =? 0) then
      (Ok n, mk_world (w_files w)
               (w_log w ++ [(WARNING, "Could not get creation time for " +:+ snap
                                      +:+ ": " +:+ Str.strip (stderr res))])
               tr1)
    else if String.eqb out "" then (Ok n, mk_world (w_files w) (w_log w) tr1)
    else
      match Datetime.strptime out with
      | None => (Raise ValueError, mk_world (w_files w) (w_log w) tr1)
      | Some t =>
          if age_days <=? elapsed_days (clock E tr1) t then
            let found := (INFO, "Found snapshot: " +:+ snap +:+ " (created "
                                +:+ out +:+ ")") in
            if dry_run then
              (Ok n, mk_world (w_files w) (w_log w ++ [found] ++ [would_destroy snap]) tr1)
            else
              let res2 := ext_tool E tr1 (destroy_cmd recursive snap) in
              let tr2 := tr1 ++ [EvCmd (destroy_cmd recursive snap) res2] in
              if returncode res2 =? 0 then
                (Ok (n + 1),
                 mk_world (w_files w)
                   (w_log w ++ [found] ++ [(INFO, "Destroyed: " +:+ snap)]) tr2)
              else
                (Ok n,
                 mk_world (w_files w)
                   (w_log w ++ [found]
                    ++ [(ERROR, "Failed to destroy " +:+ snap +:+ ": "
                                +:+ Str.strip (stderr res2))]) tr2)
          else (Ok n, mk_world (w_files w) (w_log w) tr1)
      end.
Proof.
  cbv zeta. unfold cleanup_step, bind at 1. rewrite get_snapshot_creation_unfold.
  cbv zeta.
  destruct (returncode (ext_tool E (w_trace w) (creation_cmd snap)) =? 0) eqn:Hc;
    [|reflexivity].
  cbn [negb]. unfold bind at 1.
  destruct (String.eqb _ "") eqn:He; [reflexivity|].
  unfold bind at 1.
  destruct (Datetime.strptime _) as [t|] eqn:Hp.
  - rewrite (is_older_than_parsed E _ t) by exact Hp. cbn [w_trace].
    destruct (age_days <=? _) eqn:Hage; [|reflexivity].
    destruct dry_run.
    + unfold ret, bind, logging. cbn. by rewrite <- !app_assoc.
    + unfold ret, bind, logging, run_cmd. cbn [w_trace w_log w_files negb default].
      clear Hc. destruct (returncode _ =? 0); cbn; by rewrite <- !app_assoc.
  - by rewrite is_older_than_unparsed.
Qed.

Lemma creation_cmd_not_destroy (snap : string) (res : cmdres) :
  is_destroy (EvCmd (creation_cmd snap) res) = false
  ∧ is_destroyed (EvCmd (creation_cmd snap) res) = false.
Proof. split; reflexivity. Qed.

Lemma destroy_cmd_is_destroy (recursive : bool) (snap : string) (res : cmdres) :
  is_destroy (EvCmd (destroy_cmd recursive snap) res) = true
  ∧ is_destroyed (EvCmd (destroy_cmd recursive snap) res) = (returncode res =? 0).
Proof. destruct recursive; split; reflexivity. Qed.

Lemma for_each_app {A B} (body : A → B → M B) (xs ys : list A) (b : B) (w : world) :
  for_each body (xs ++ ys) b w
  = match for_each body xs b w with
    | (Ok b1, w1) => for_each body ys b1 w1
    | (Raise e, w1) => (Raise e, w1)
    end.
Proof.
  revert b w. induction xs as [|x xs IH]; intros b w; simpl; [reflexivity|].
  unfold bind. destruct (body x b w) as [[b1|e] w1]; [apply IH | reflexivity].
Qed.

Lemma grows_refl (w : world) : grows w w [] [].
Proof. unfold grows. by rewrite !app_nil_r. Qed.

Lemma grows_trans (w1 w2 w3 : world) evs1 evs2 logs1 logs2 :
  grows w1 w2 evs1 logs1 → grows w2 w3 evs2 logs2 →
  grows w1 w3 (evs1 ++ evs2) (logs1 ++ logs2).
Proof.
  intros (Hf1 & Ht1 & Hl1) (Hf2 & Ht2 & Hl2). unfold grows.
  rewrite Hf2, Ht2, Hl2, Hf1, Ht1, Hl1, !app_assoc. done.
Qed.

Ltac step_cases H :=
  rewrite cleanup_step_unfold in H; cbv zeta in H;
  repeat (let Heq := fresh "Hcase" in
          match type of H with
          | context [if ?b then _ else _] => destruct b eqn:Heq
          | context [match ?o with Some _ => _ | None => _ end] => destruct o eqn:Heq
          end);
  simplify_eq.

(** One turn adds events and records; it counts exactly the destroy
    invocations that succeeded; in dry-run mode it issues no destroy
    invocation and leaves the counter alone. *)
Lemma cleanup_step_grows (E : Env) (age_days : Z) (recursive dry_run : bool)
    (snap : string) (n : Z) (w : world) r w' :
  cleanup_step E age_days recursive dry_run snap n w = (r, w') →
  ∃ evs logs,
    grows w w' evs logs
    ∧ (∀ n', r = Ok n' → n' = n + count_destroyed evs)
    ∧ (dry_run = true → List.filter is_destroy evs = []).
Proof.
  intros H. destruct recursive; step_cases H; eexists _, _;
    (split;
     [unfold grows; simpl;
      split; [reflexivity|];
      split; [rewrite <- ?app_assoc; reflexivity
             | first [reflexivity | symmetry; apply app_nil_r]]
     |]);
    (split; [intros n' Hn'; simplify_eq | intros Hdry; by simplify_eq]);
    unfold count_destroyed; simpl; rewrite ?Hcase, ?Hcase0, ?Hcase1, ?Hcase2,
      ?Hcase3, ?Hcase4; simpl; lia.
Qed.

Lemma count_destroyed_app (evs1 evs2 : list event) :
  count_destroyed (evs1 ++ evs2) = count_destroyed evs1 + count_destroyed evs2.
Proof. unfold count_destroyed. rewrite List.filter_app, length_app. lia. Qed.

(** The loop adds events and records; when it runs to its end the counter
    has grown by the number of successful destroy invocations; in dry-run
    mode there is no destroy invocation at all. *)
Lemma cleanup_loop_grows (E : Env) (age_days : Z) (recursive dry_run : bool)
    (snaps : list string) (n : Z) (w : world) r w' :
  for_each (cleanup_step E age_days recursive dry_run) snaps n w = (r, w') →
  ∃ evs logs,
    grows w w' evs logs
    ∧ (∀ n', r = Ok n' → n' = n + count_destroyed evs)
    ∧ (dry_run = true → List.filter is_destroy evs = []).
Proof.
  revert n w. induction snaps as [|snap snaps IH]; intros n w Hrun; simpl in Hrun.
  - unfold ret in Hrun. simplify_eq. exists [], []. split; [apply grows_refl|].
    split; [intros n' [= <-]; unfold count_destroyed; simpl; lia | done].
  - unfold bind in Hrun.
    destruct (cleanup_step E age_days recursive dry_run snap n w) as [r1 w1] eqn:Hstep.
    destruct (cleanup_step_grows _ _ _ _ _ _ _ _ _ Hstep) as (evs1 & logs1 & Hg1 & Hn1 & Hd1).
    destruct r1 as [n1|e].
    + destruct (IH _ _ Hrun) as (evs2 & logs2 & Hg2 & Hn2 & Hd2).
      exists (evs1 ++ evs2), (logs1 ++ logs2).
      split; [by eapply grows_trans|]. split.
      * intros n' ->. rewrite count_destroyed_app, (Hn2 n' eq_refl), (Hn1 n1 eq_refl). lia.
      * intros Hdry. by rewrite List.filter_app, Hd1, Hd2.
    + simplify_eq. exists evs1, logs1. split; [done|]. split; [done|exact Hd1].
Qed.

Lemma strptime_empty : Datetime.strptime "" = None.
Proof. reflexivity. Qed.

(** In dry-run mode an eligible snapshot gets its record and the loop goes on. *)
Lemma cleanup_step_eligible_dry_run (E : Env) (age_days : Z) (recursive : bool)
    (snap : string) (n : Z) (w : world) :
  eligible E age_days snap (w_trace w) = true →
  ∃ w' logs,
    cleanup_step E age_days recursive true snap n w = (Ok n, w')
    ∧ grows w w' [EvCmd (creation_cmd snap) (ext_tool E (w_trace w) (creation_cmd snap))] logs
    ∧ would_destroy snap ∈ logs.
Proof.
  unfold eligible. intros Hel. apply andb_true_iff in Hel as [Hcode Hel].
  destruct (Datetime.strptime _) as [t|] eqn:Hp; [|done].
  rewrite cleanup_step_unfold. cbv zeta. rewrite Hcode, Hp, Hel. simpl negb. cbv iota.
  destruct (String.eqb _ "") eqn:He.
  { apply String.eqb_eq in He. rewrite He, strptime_empty in Hp. done. }
  eexists _, _. split; [reflexivity|]. split; [done|].
  apply list_elem_of_In. simpl. tauto.
Qed.

(** In live mode an eligible snapshot is destroyed: the destroy command is
    issued, and counted when it succeeds. *)
Lemma cleanup_step_eligible_live (E : Env) (age_days : Z) (recursive : bool)
    (snap : string) (n : Z) (w : world) :
  eligible E age_days snap (w_trace w) = true →
  let res := ext_tool E (w_trace w) (creation_cmd snap) in
  let tr1 := w_trace w ++ [EvCmd (creation_cmd snap) res] in
  let res2 := ext_tool E tr1 (destroy_cmd recursive snap) in
  ∃ w' logs,
    cleanup_step E age_days recursive false snap n w
    = (Ok (if returncode res2 =? 0 then n + 1 else n), w')
    ∧ grows w w' [EvCmd (creation_cmd snap) res; EvCmd (destroy_cmd recursive snap) res2] logs.
Proof.
  unfold eligible. cbv zeta. intros Hel. apply andb_true_iff in Hel as [Hcode Hel].
  destruct (Datetime.strptime _) as [t|] eqn:Hp; [|done].
  rewrite cleanup_step_unfold. cbv zeta. rewrite Hcode, Hp, Hel. simpl negb. cbv iota.
  destruct (String.eqb _ "") eqn:He.
  { apply String.eqb_eq in He. rewrite He, strptime_empty in Hp. done. }
  clear Hcode.
  destruct (returncode _ =? 0); eexists _, _; (split; [reflexivity|]);
    unfold grows; simpl; by rewrite <- app_assoc.
Qed.

(** A fetch that fails is not fatal: a warning is logged, the snapshot is
    left alone and the loop goes on with the next one. *)
Lemma cleanup_step_fetch_failed (E : Env) (age_days : Z) (recursive dry_run : bool)
    (snap : string) (n : Z) (w : world) :
  let res := ext_tool E (w_trace w) (creation_cmd snap) in
  returncode res ≠ 0 →
  cleanup_step E age_days recursive dry_run snap n w
  = (Ok n,
     mk_world (w_files w)
       (w_log w ++ [(WARNING, "Could not get creation time for " +:+ snap
                              +:+ ": " +:+ Str.strip (stderr res))])
       (w_trace w ++ [EvCmd (creation_cmd snap) res])).
Proof.
  intros res Hcode. rewrite cleanup_step_unfold. cbv zeta. fold res.
  apply Z.eqb_neq in Hcode. by rewrite Hcode.
Qed.

(** A creation string that does not parse ends the loop with [ValueError]:
    nothing is logged and no further snapshot is looked at. *)
Lemma cleanup_loop_unparsable (E : Env) (age_days : Z) (recursive dry_run : bool)
    (snap : string) (rest : list string) (n : Z) (w : world) :
  let res := ext_tool E (w_trace w) (creation_cmd snap) in
  returncode res = 0 →
  Str.strip (stdout res) ≠ "" →
  Datetime.strptime (Str.strip (stdout res)) = None →
  for_each (cleanup_step E age_days recursive dry_run) (snap :: rest) n w
  = (Raise ValueError,
     mk_world (w_files w) (w_log w) (w_trace w ++ [EvCmd (creation_cmd snap) res])).
Proof.
  intros res Hcode Hne Hp. simpl. unfold bind.
  rewrite cleanup_step_unfold. cbv zeta. fold res. rewrite Hcode, Hp. simpl negb. cbv iota.
  apply String.eqb_neq in Hne. by rewrite Hne.
Qed.

Lemma count_destroyed_no_destroy (evs : list event) :
  List.filter is_destroy evs = [] → count_destroyed evs = 0.
Proof.
  unfold count_destroyed. induction evs as [|e evs IH]; simpl; [done|].
  destruct e as [cmd res| | |]; simpl; try exact IH.
  destruct (Str.startswith cmd "zfs destroy "); simpl; [done | exact IH].
Qed.

Lemma grows_inj (w w' : world) evs1 evs2 logs1 logs2 :
  grows w w' evs1 logs1 → grows w w' evs2 logs2 → evs1 = evs2 ∧ logs1 = logs2.
Proof.
  intros (_ & Ht1 & Hl1) (_ & Ht2 & Hl2). rewrite Ht1 in Ht2. rewrite Hl1 in Hl2.
  split; by eapply app_inv_head.
Qed.

(** In dry-run mode every snapshot that is eligible when the loop reaches
    it has its record in what the loop logged. *)
Lemma cleanup_loop_dry_run_records (E : Env) (age_days : Z) (recursive : bool)
    (snaps : list string) (n : Z) (w : world) r w' evs logs :
  for_each (cleanup_step E age_days recursive true) snaps n w = (r, w') →
  grows w w' evs logs →
  ∀ pre snap post n1 w1,
    snaps = pre ++ snap :: post →
    for_each (cleanup_step E age_days recursive true) pre n w = (Ok n1, w1) →
    eligible E age_days snap (w_trace w1) = true →
    would_destroy snap ∈ logs.
Proof.
  intros Hrun Hg pre snap post n1 w1 -> Hpre Hel.
  rewrite for_each_app, Hpre in Hrun. simpl in Hrun. unfold bind in Hrun.
  destruct (cleanup_step_eligible_dry_run E age_days recursive snap n1 w1 Hel)
    as (w2 & logs2 & Hstep & Hg2 & Hin).
  rewrite Hstep in Hrun.
  destruct (cleanup_loop_grows _ _ _ _ _ _ _ _ _ Hpre) as (evs1 & logs1 & Hg1 & _).
  destruct (cleanup_loop_grows _ _ _ _ _ _ _ _ _ Hrun) as (evs3 & logs3 & Hg3 & _).
  pose proof (grows_trans _ _ _ _ _ _ _ (grows_trans _ _ _ _ _ _ _ Hg1 Hg2) Hg3) as Hall.
  destruct (grows_inj _ _ _ _ _ _ Hg Hall) as [_ ->].
  rewrite !elem_of_app. auto.
Qed.

(** The loop runs to its end when the age of every snapshot can be
    evaluated at its turn. *)
Lemma cleanup_loop_completes (E : Env) (age_days : Z) (recursive dry_run : bool)
    (snaps : list string) (n : Z) (w : world) :
  (∀ pre snap post n1 w1,
     snaps = pre ++ snap :: post →
     for_each (cleanup_step E age_days recursive dry_run) pre n w = (Ok n1, w1) →
     evaluable E snap (w_trace w1) = true) →
  ∃ n' w', for_each (cleanup_step E age_days recursive dry_run) snaps n w = (Ok n', w').
Proof.
  revert n w. induction snaps as [|snap snaps IH]; intros n w Hev; simpl.
  - by eexists _, _.
  - unfold bind.
    assert (Hs : ∃ n1 w1, cleanup_step E age_days recursive dry_run snap n w = (Ok n1, w1)).
    { specialize (Hev [] snap snaps n w eq_refl eq_refl).
      unfold evaluable in Hev. rewrite cleanup_step_unfold. cbv zeta.
      destruct (negb _); [by eexists _, _|].
      destruct (String.eqb _ ""); [by eexists _, _|].
      simpl in Hev. apply bool_decide_eq_true in Hev as [t ->].
      repeat (match goal with |- context [if ?b then _ else _] => destruct b end);
        by eexists _, _. }
    destruct Hs as (n1 & w1 & Hs). rewrite Hs. apply IH.
    intros pre s post n2 w2 -> Hpre. apply (Hev (snap :: pre) s post n2 w2 eq_refl).
    simpl. unfold bind. by rewrite Hs.
Qed.

(** ** The destroyer *)

(** In dry-run mode the destroyer issues no destroy invocation, whatever
    its outcome. *)
Lemma destroy_snapshots_dry_run_no_destroy
    (E : Env) (age_days : Z) (recursive : bool) (snaps : list string)
    (w : world) (r : outcome unit) (w' : world) :
  destroy_snapshots E age_days recursive true snaps w = (r, w') →
  ∃ evs logs, grows w w' evs logs ∧ List.filter is_destroy evs = [].
Proof.
  unfold destroy_snapshots, bind. intros Hrun.
  destruct (for_each _ snaps 0 w) as [r1 w1] eqn:Hloop.
  destruct (cleanup_loop_grows _ _ _ _ _ _ _ _ _ Hloop) as (evs & logs & Hg & _ & Hd).
  destruct r1 as [n|e]; unfold logging in Hrun; simplify_eq.
  - exists evs, (logs ++ [total_destroyed n]). split; [|by apply Hd].
    destruct Hg as (? & ? & Hl). unfold grows; simpl. by rewrite Hl, app_assoc.
  - exists evs, logs. split; [done | by apply Hd].
Qed.

(** C8: in dry-run mode the destroyer issues no destroy invocation to the
    external tool, logs a "Would destroy" record for every snapshot that is
    eligible when its turn comes, and reports a destroyed count of 0 as its
    last record when the loop has run to its end, which it does whenever
    the age of every snapshot can be evaluated. *)
Theorem C8_dry_run_destroys_nothing
    (E : Env) (age_days : Z) (recursive : bool) (snaps : list string)
    (w : world) (r : outcome unit) (w' : world) :
  destroy_snapshots E age_days recursive true snaps w = (r, w') →
  ∃ evs logs,
    grows w w' evs logs
    ∧ List.filter is_destroy evs = []
    ∧ (∀ pre snap post n1 w1,
         snaps = pre ++ snap :: post →
         for_each (cleanup_step E age_days recursive true) pre 0 w = (Ok n1, w1) →
         eligible E age_days snap (w_trace w1) = true →
         would_destroy snap ∈ logs)
    ∧ (r = Ok tt → last logs = Some (total_destroyed 0))
    ∧ ((∀ pre snap post n1 w1,
          snaps = pre ++ snap :: post →
          for_each (cleanup_step E age_days recursive true) pre 0 w = (Ok n1, w1) →
          evaluable E snap (w_trace w1) = true) →
       r = Ok tt).
Proof.
  unfold destroy_snapshots, bind. intros Hrun.
  destruct (for_each _ snaps 0 w) as [r1 w1] eqn:Hloop.
  destruct (cleanup_loop_grows _ _ _ _ _ _ _ _ _ Hloop) as (evs & logs & Hg & Hn & Hd).
  specialize (Hd eq_refl).
  pose proof (cleanup_loop_dry_run_records _ _ _ _ _ _ _ _ _ _ Hloop Hg) as Hrec.
  destruct r1 as [n|e].
  - rewrite (Hn n eq_refl), count_destroyed_no_destroy in Hrun by done.
    unfold logging in Hrun. simplify_eq.
    exists evs, (logs ++ [total_destroyed 0]). split.
    { destruct Hg as (? & ? & Hl). unfold grows; simpl.
      by rewrite Hl, app_assoc. }
    split; [done|]. split; [|split; [|done]].
    + intros. apply elem_of_app. left. eauto.
    + intros _. apply last_snoc.
  - simplify_eq. exists evs, logs. split; [done|]. split; [done|].
    split; [eauto|]. split; [done|].
    intros Hev. destruct (cleanup_loop_completes _ _ _ _ _ _ _ Hev) as (n' & w2 & Hok).
    rewrite Hok in Hloop. done.
Qed.

Example dry_run_scenario :
  fst run_dry = Ok tt
  ∧ w_trace (snd run_dry)
    = [EvCmd (creation_cmd snap_10) (ok ("Mon Feb  3 03:00 2025" +:+ NL));
       EvCmd (creation_cmd snap_30) (ok ("Tue Jan 14 03:00 2025" +:+ NL));
       EvCmd (creation_cmd snap_45) (ok ("Mon Dec 30 03:00 2024" +:+ NL))]
  ∧ w_log (snd run_dry)
    = [(INFO, "Found snapshot: tank@weekly-2025-01-14 (created Tue Jan 14 03:00 2025)");
       (INFO, "[Dry-run] Would destroy tank@weekly-2025-01-14");
       (INFO, "Found snapshot: tank@weekly-2024-12-30 (created Mon Dec 30 03:00 2024)");
       (INFO, "[Dry-run] Would destroy tank@weekly-2024-12-30");
       (INFO, "Total snapshots destroyed: 0")].
Proof. vm_compute. repeat split. Qed.

Lemma C8_dry_run_destroys_nothing_witness :
  ∃ evs logs,
    grows w0 (snd run_dry) evs logs
    ∧ List.filter is_destroy evs = []
    ∧ (∀ pre snap post n1 w1,
         snaps_scenario = pre ++ snap :: post →
         for_each (cleanup_step env_scenario 30 false true) pre 0 w0 = (Ok n1, w1) →
         eligible env_scenario 30 snap (w_trace w1) = true →
         would_destroy snap ∈ logs)
    ∧ (fst run_dry = Ok tt → last logs = Some (total_destroyed 0))
    ∧ ((∀ pre snap post n1 w1,
          snaps_scenario = pre ++ snap :: post →
          for_each (cleanup_step env_scenario 30 false true) pre 0 w0 = (Ok n1, w1) →
          evaluable env_scenario snap (w_trace w1) = true) →
       fst run_dry = Ok tt).
Proof.
  apply (C8_dry_run_destroys_nothing env_scenario 30 false snaps_scenario w0
           (fst run_dry) (snd run_dry)).
  vm_compute. reflexivity.
Defined.

(** The same for a whole cleanup in dry-run mode, the listing included:
    whatever the outcome, no destroy invocation is issued. *)
Lemma cleanup_snapshots_dry_run_no_destroy
    (E : Env) (pattern : string) (age_days : Z) (recursive : bool)
    (pool : option string) (cfg : gmap string value) (w : world) r w' :
  cleanup_snapshots E pattern age_days recursive true pool cfg w = (r, w') →
  ∃ evs, w_trace w' = w_trace w ++ evs ∧ List.filter is_destroy evs = [].
Proof.
  intros Hrun. unfold cleanup_snapshots, bind in Hrun.
  destruct (decide (returncode (ext_tool E (w_trace w) list_cmd) = 0)) as [Hcode|Hcode].
  - rewrite load_snapshots_ok in Hrun by exact Hcode.
    destruct (List.filter _ _) as [|snap snaps].
    + unfold logging in Hrun. simplify_eq. by eexists [_].
    + destruct (destroy_snapshots_dry_run_no_destroy _ _ _ _ _ _ _ Hrun)
        as (evs & logs & (_ & Ht & _) & Hd).
      exists (EvCmd list_cmd (ext_tool E (w_trace w) list_cmd) :: evs).
      split; [|exact Hd]. rewrite Ht. simpl. by rewrite <- app_assoc.
  - rewrite load_snapshots_failed in Hrun by exact Hcode. simplify_eq.
    by eexists [_].
Qed.

(** C9, as amended: a run of [cleanup_snapshots] that returns has either
    matched no snapshot, and then logs only that nothing was found, or has
    matched at least one, and then its last record reports the total, which
    is the number of successful destroy invocations of the run. *)
Theorem C9_total_is_successful_destroys
    (E : Env) (pattern : string) (age_days : Z) (recursive dry_run : bool)
    (pool : option string) (cfg : gmap string value) (w w' : world) :
  cleanup_snapshots E pattern age_days recursive dry_run pool cfg w = (Ok tt, w') →
  let res := ext_tool E (w_trace w) list_cmd in
  let matched := List.filter (keeps pattern pool) (identifiers (Str.strip (stdout res))) in
  ∃ evs logs,
    grows w w' evs logs
    ∧ (matched ≠ [] → last logs = Some (total_destroyed (count_destroyed evs)))
    ∧ (matched = [] →
       logs = [(INFO, "No snapshots matching '" +:+ pattern +:+ "' found.")]).
Proof.
  intros Hrun res matched. unfold cleanup_snapshots, bind in Hrun.
  destruct (decide (returncode res = 0)) as [Hcode|Hcode].
  2: { rewrite load_snapshots_failed in Hrun by exact Hcode. done. }
  rewrite load_snapshots_ok in Hrun by exact Hcode. fold res matched in Hrun.
  destruct matched as [|snap snaps] eqn:Hm.
  - unfold logging in Hrun. simplify_eq. eexists [_], [_].
    split; [by unfold grows|]. split; [done | reflexivity].
  - unfold destroy_snapshots, bind in Hrun.
    destruct (for_each _ _ 0 _) as [[n|e] w1] eqn:Hloop; [|done].
    destruct (cleanup_loop_grows _ _ _ _ _ _ _ _ _ Hloop) as (evs & logs & Hg & Hn & _).
    unfold logging in Hrun. simplify_eq.
    exists (EvCmd list_cmd res :: evs), (logs ++ [total_destroyed (0 + count_destroyed evs)]).
    split.
    + destruct Hg as (Hf & Ht & Hl). unfold grows; simpl in *.
      rewrite Hf, Ht, Hl, <- !app_assoc. simpl. by rewrite (Hn n eq_refl).
    + split; [|done]. intros _. rewrite last_snoc. do 2 f_equal.
Qed.

Example live_scenario :
  fst run_live = Ok tt
  ∧ List.filter is_destroy (w_trace (snd run_live))
    = [EvCmd (destroy_cmd false snap_30) (ok "");
       EvCmd (destroy_cmd false snap_45) (ok "")]
  ∧ last (w_log (snd run_live)) = Some (INFO, "Total snapshots destroyed: 2").
Proof. vm_compute. repeat split. Qed.

Lemma C9_total_is_successful_destroys_witness :
  let res := ext_tool env_scenario (w_trace w0) list_cmd in
  let matched := List.filter (keeps "weekly" None) (identifiers (Str.strip (stdout res))) in
  ∃ evs logs,
    grows w0 (snd run_live) evs logs
    ∧ (matched ≠ [] → last logs = Some (total_destroyed (count_destroyed evs)))
    ∧ (matched = [] → logs = [(INFO, "No snapshots matching '" +:+ "weekly" +:+ "' found.")]).
Proof.
  apply (C9_total_is_successful_destroys env_scenario "weekly" 30 false false None
           DEFAULT_CONFIG w0 (snd run_live)).
  vm_compute. reflexivity.
Defined.

(** C9 as stated fails: when the enumerator matches no snapshot the run
    returns without logging any total. *)
Lemma C9_counterexample :
  fst run_no_match = Ok tt
  ∧ ¬ (∃ n, total_destroyed n ∈ w_log (snd run_no_match)).
Proof.
  split; [vm_compute; reflexivity|].
  intros [n Hin].
  assert (Hlog : w_log (snd run_no_match)
                 = [(INFO, "No snapshots matching 'weekly' found.")])
    by (vm_compute; reflexivity).
  rewrite Hlog in Hin. apply list_elem_of_singleton in Hin.
  unfold total_destroyed in Hin. discriminate Hin.
Qed.

(** ** A creation time that does not parse *)

(** C1, at the failing input: the first creation time does not parse, and
    the script ends with [ValueError] and exit status 1 after releasing the
    lock and mailing the log; no warning is logged and the two other
    snapshots are never looked at. *)
Theorem C1_unparsable_creation_aborts_run :
  Datetime.strptime "Mo Feb  3 03:00 2025" = None
  ∧ fst run_german = Raise ValueError
  ∧ exit_status (fst run_german) = 1
  ∧ w_log (snd run_german) = []
  ∧ w_trace (snd run_german)
    = [EvCreate "/var/run/zfs-killsnaps.lock";
       EvCmd list_cmd (ok listing_scenario);
       EvCmd (creation_cmd snap_10) (ok ("Mo Feb  3 03:00 2025" +:+ NL));
       EvRemove "/var/run/zfs-killsnaps.lock";
       EvMail "admin@example.com" "/var/log/zfs-killsnaps.log"].
Proof. vm_compute. repeat split. Qed.

(** ** The run lock *)

Lemma lock_or_exit_held (E : Env) (lk : string) (w : world) :
  file_at E lk (w_files w) = true →
  lock_or_exit E (VStr lk) w
  = (Raise (SystemExit 1),
     mk_world (w_files w)
       (w_log w ++ [(ERROR, "Lock file exists. Script already running.")])
       (w_trace w)).
Proof.
  intros Hin. unfold lock_or_exit, bind, os_path_exists. by rewrite Hin.
Qed.

Lemma lock_or_exit_free (E : Env) (lk : string) (w : world) :
  file_at E lk (w_files w) = false →
  open_for_writing E lk = None →
  lock_or_exit E (VStr lk) w
  = (Ok (release E (VStr lk)),
     mk_world ({[resolve E lk]} ∪ w_files w) (w_log w) (w_trace w ++ [EvCreate lk])).
Proof.
  intros Hin Hopen. unfold lock_or_exit, bind, os_path_exists, open_w_close.
  by rewrite Hin, Hopen.
Qed.

Lemma lock_or_exit_refused (E : Env) (lk : string) (w : world) (err : oserror) :
  file_at E lk (w_files w) = false →
  open_for_writing E lk = Some err →
  lock_or_exit E (VStr lk) w = (Raise (exn_of_oserror err), w).
Proof.
  intros Hin Hopen. unfold lock_or_exit, bind, os_path_exists, open_w_close.
  by rewrite Hin, Hopen.
Qed.

(** When the lock returns a handle, the marker was absent, the operating
    system let it be created, and the handle is the removal of the marker. *)
Lemma lock_or_exit_returns (E : Env) (lk : string) (w w1 : world) (handle : M unit) :
  lock_or_exit E (VStr lk) w = (Ok handle, w1) →
  file_at E lk (w_files w) = false
  ∧ open_for_writing E lk = None
  ∧ handle = release E (VStr lk)
  ∧ w1 = mk_world ({[resolve E lk]} ∪ w_files w) (w_log w) (w_trace w ++ [EvCreate lk]).
Proof.
  intros Hrun.
  destruct (file_at E lk (w_files w)) eqn:Hat.
  { rewrite lock_or_exit_held in Hrun by done. discriminate. }
  destruct (open_for_writing E lk) as [err|] eqn:Hopen.
  { rewrite (lock_or_exit_refused E lk w err) in Hrun by done. discriminate. }
  rewrite lock_or_exit_free in Hrun by done.
  injection Hrun as <- <-. done.
Qed.

Lemma release_present (E : Env) (lk : string) (w : world) :
  file_at E lk (w_files w) = true →
  release E (VStr lk) w
  = (Ok tt, mk_world (w_files w ∖ {[resolve E lk]}) (w_log w) (w_trace w ++ [EvRemove lk])).
Proof. intros Hin. unfold release, os_remove. by rewrite Hin. Qed.

Lemma release_missing (E : Env) (lk : string) (w : world) :
  file_at E lk (w_files w) = false → release E (VStr lk) w = (Raise FileNotFoundError, w).
Proof. intros Hin. unfold release, os_remove. by rewrite Hin. Qed.

Lemma in_after_create (p : string) (X : gset string) : p ∈ {[p]} ∪ X.
Proof. apply elem_of_union_l, elem_of_singleton. reflexivity. Qed.

Lemma not_in_after_remove (p : string) (X : gset string) : p ∉ X ∖ {[p]}.
Proof. rewrite elem_of_difference, elem_of_singleton. tauto. Qed.

Lemma file_at_after_create (E : Env) (p : string) (X : gset string) :
  p ≠ "" → file_at E p ({[resolve E p]} ∪ X) = true.
Proof. intros Hne. apply file_at_true. split; [done | apply in_after_create]. Qed.

Lemma file_at_after_remove (E : Env) (p : string) (X : gset string) :
  file_at E p (X ∖ {[resolve E p]}) = false.
Proof. apply file_at_false, not_in_after_remove. Qed.

(** C7, as amended: whenever the lock returns a handle, the marker is in
    place; the handle removes the marker when it is there; called when the
    marker has already been removed, it raises [FileNotFoundError] to its
    caller and changes nothing. *)
Theorem C7_release_raises_when_marker_gone
    (E : Env) (lk : string) (w w1 : world) (handle : M unit) :
  lock_or_exit E (VStr lk) w = (Ok handle, w1) →
  file_at E lk (w_files w1) = true
  ∧ (∀ w2, file_at E lk (w_files w2) = true →
       ∃ w3, handle w2 = (Ok tt, w3) ∧ file_at E lk (w_files w3) = false)
  ∧ (∀ w2, file_at E lk (w_files w2) = false →
       handle w2 = (Raise FileNotFoundError, w2)).
Proof.
  intros Hrun. apply lock_or_exit_returns in Hrun as (_ & Hopen & -> & ->).
  apply open_for_writing_granted in Hopen as [Hne _].
  split; [by apply file_at_after_create|]. split.
  - intros w2 Hin. eexists. split; [by apply release_present|].
    apply file_at_after_remove.
  - intros w2 Hout. by apply release_missing.
Qed.

Lemma C7_release_raises_when_marker_gone_witness :
  let handle := release env_scenario (VStr lock_path) in
  let w1 := mk_world {[lock_path]} [] [EvCreate lock_path] in
  lock_or_exit env_scenario (VStr lock_path) w0 = (Ok handle, w1)
  ∧ file_at env_scenario lock_path (w_files w1) = true
  ∧ (∀ w2, file_at env_scenario lock_path (w_files w2) = true →
       ∃ w3, handle w2 = (Ok tt, w3) ∧ file_at env_scenario lock_path (w_files w3) = false)
  ∧ (∀ w2, file_at env_scenario lock_path (w_files w2) = false →
       handle w2 = (Raise FileNotFoundError, w2)).
Proof.
  intros handle w1.
  assert (Hrun : lock_or_exit env_scenario (VStr lock_path) w0 = (Ok handle, w1))
    by (vm_compute; reflexivity).
  split; [exact Hrun|].
  exact (C7_release_raises_when_marker_gone env_scenario lock_path w0 w1 handle Hrun).
Defined.

(** C7 as stated fails: released a second time, when the marker is already
    gone, the handle raises [FileNotFoundError] to its caller. *)
Lemma C7_counterexample :
  ∃ handle w1 w2,
    lock_or_exit env_scenario (VStr lock_path) w0 = (Ok handle, w1)
    ∧ handle w1 = (Ok tt, w2)
    ∧ (lock_path ∉ w_files w2)
    ∧ handle w2 = (Raise FileNotFoundError, w2).
Proof.
  eexists _, _, _.
  split; [apply lock_or_exit_free; reflexivity|].
  split; [apply release_present; reflexivity|].
  split; [apply not_in_after_remove|].
  apply release_missing, file_at_after_remove.
Qed.

(** ** The whole run *)

(** The run when the log file cannot be opened: [logging.basicConfig]
    raises, before the lock is looked at. *)
Lemma main_log_refused (E : Env) (args : Args) (w : world)
    (cfg : gmap string value) (lf : string) (err : oserror) :
  load_config E (config args) w = (Ok cfg, w) →
  cfg !! "logfile" = Some (VStr lf) →
  lf ≠ "" →
  open_for_writing E lf = Some err →
  main E args w = (Raise (exn_of_oserror err), w).
Proof.
  intros Hload Hlf Hne Hopen. unfold main, bind at 1. rewrite Hload.
  unfold bind at 1, getitem at 1. rewrite Hlf. unfold ret at 1.
  unfold bind at 1. unfold logging_basicConfig at 1, truthy.
  apply String.eqb_neq in Hne. by rewrite Hne, Hopen.
Qed.

(** [logging.basicConfig] on a log file that opens. *)
Lemma logging_basicConfig_opens (E : Env) (lf : string) (w : world) :
  open_for_writing E lf = None →
  logging_basicConfig E (VStr lf) w
  = (Ok tt, mk_world ({[resolve E lf]} ∪ w_files w) (w_log w) (w_trace w)).
Proof.
  intros Hopen. unfold logging_basicConfig, truthy. rewrite Hopen.
  apply open_for_writing_granted in Hopen as [Hne%String.eqb_neq _]. by rewrite Hne.
Qed.

(** The run up to the lock, for a configuration that loads and a log file
    that opens. *)
Lemma main_lock_held (E : Env) (args : Args) (w : world)
    (cfg : gmap string value) (lf lk : string) :
  load_config E (config args) w = (Ok cfg, w) →
  cfg !! "logfile" = Some (VStr lf) →
  cfg !! "lockfile" = Some (VStr lk) →
  open_for_writing E lf = None →
  file_at E lk ({[resolve E lf]} ∪ w_files w) = true →
  main E args w
  = (Raise (SystemExit 1),
     mk_world ({[resolve E lf]} ∪ w_files w)
       (w_log w ++ [(ERROR, "Lock file exists. Script already running.")])
       (w_trace w)).
Proof.
  intros Hload Hlf Hlk Hopen Hin. unfold main, bind at 1. rewrite Hload.
  unfold bind at 1, getitem at 1. rewrite Hlf. unfold ret at 1.
  unfold bind at 1. rewrite logging_basicConfig_opens by done.
  unfold bind at 1, getitem at 1. rewrite Hlk. unfold ret at 1.
  unfold bind at 1. by rewrite lock_or_exit_held.
Qed.

(** The run when the marker is absent and cannot be created: [open]
    raises inside [lock_or_exit], outside the [try]. *)
Lemma main_lock_refused (E : Env) (args : Args) (w : world)
    (cfg : gmap string value) (lf lk : string) (err : oserror) :
  load_config E (config args) w = (Ok cfg, w) →
  cfg !! "logfile" = Some (VStr lf) →
  cfg !! "lockfile" = Some (VStr lk) →
  open_for_writing E lf = None →
  file_at E lk ({[resolve E lf]} ∪ w_files w) = false →
  open_for_writing E lk = Some err →
  main E args w
  = (Raise (exn_of_oserror err),
     mk_world ({[resolve E lf]} ∪ w_files w) (w_log w) (w_trace w)).
Proof.
  intros Hload Hlf Hlk Hopen Hfree Herr. unfold main, bind at 1. rewrite Hload.
  unfold bind at 1, getitem at 1. rewrite Hlf. unfold ret at 1.
  unfold bind at 1. rewrite logging_basicConfig_opens by done.
  unfold bind at 1, getitem at 1. rewrite Hlk. unfold ret at 1.
  unfold bind at 1. by rewrite (lock_or_exit_refused E lk _ err).
Qed.

Lemma main_locked (E : Env) (args : Args) (w : world)
    (cfg : gmap string value) (lf lk : string) :
  load_config E (config args) w = (Ok cfg, w) →
  cfg !! "logfile" = Some (VStr lf) →
  cfg !! "lockfile" = Some (VStr lk) →
  open_for_writing E lf = None →
  open_for_writing E lk = None →
  file_at E lk ({[resolve E lf]} ∪ w_files w) = false →
  main E args w
  = try_finally
      (age_days <- age_or_policy args cfg ;;
       cleanup_snapshots E (pattern args) age_days (recursive args) (dry_run args)
         (pool args) cfg)
      (release E (VStr lk) ;;
       logfile <- getitem cfg "logfile" ;;
       email_recipient <- getitem cfg "email_recipient" ;;
       send_email E logfile email_recipient)
      (mk_world ({[resolve E lk]} ∪ ({[resolve E lf]} ∪ w_files w)) (w_log w)
         (w_trace w ++ [EvCreate lk])).
Proof.
  intros Hload Hlf Hlk Hopen Hopenlk Hin. unfold main, bind at 1. rewrite Hload.
  unfold bind at 1, getitem at 1. rewrite Hlf. unfold ret at 1.
  unfold bind at 1. rewrite logging_basicConfig_opens by done.
  unfold bind at 1, getitem at 1. rewrite Hlk. unfold ret at 1.
  unfold bind at 1. by rewrite lock_or_exit_free.
Qed.

(** The [finally] block when the marker is still there: the lock is
    released, then the notifier is invoked; with a mailer on the host the
    log file is mailed. *)
Lemma finally_releases_then_notifies (E : Env) (cfg : gmap string value)
    (lf lk rc : string) (w : world) :
  cfg !! "logfile" = Some (VStr lf) →
  cfg !! "email_recipient" = Some (VStr rc) →
  file_at E lk (w_files w) = true → file_at E lf (w_files w) = true →
  resolve E lk ≠ resolve E lf →
  (release E (VStr lk) ;;
   logfile <- getitem cfg "logfile" ;;
   email_recipient <- getitem cfg "email_recipient" ;;
   send_email E logfile email_recipient) w
  = (Ok tt,
     mk_world (w_files w ∖ {[resolve E lk]}) (w_log w)
       (w_trace w ++ [EvRemove lk] ++ (if which_mail E then [EvMail rc lf] else []))).
Proof.
  intros Hlf Hrc Hlk Hlfin Hne. unfold bind at 1. rewrite release_present by done.
  unfold bind at 1, getitem at 1. rewrite Hlf. unfold ret at 1.
  unfold bind at 1, getitem at 1. rewrite Hrc. unfold ret at 1.
  unfold send_email. destruct (which_mail E).
  - unfold bind, os_path_exists. cbn [w_files].
    assert (Hstill : file_at E lf (w_files w ∖ {[resolve E lk]}) = true).
    { apply file_at_true in Hlfin as [Hnonempty Hin]. apply file_at_true.
      split; [done|]. rewrite elem_of_difference, elem_of_singleton.
      split; [done | congruence]. }
    rewrite Hstill. unfold emit. cbn. by rewrite <- app_assoc.
  - reflexivity.
Qed.

(** The [finally] block of a run that took the lock, for a log file that
    was opened and a marker that names another file. *)
Lemma finally_after_lock (E : Env) (cfg : gmap string value)
    (lf lk rc : string) (w : world) :
  cfg !! "logfile" = Some (VStr lf) →
  cfg !! "email_recipient" = Some (VStr rc) →
  open_for_writing E lf = None →
  open_for_writing E lk = None →
  resolve E lk ∈ w_files w → resolve E lf ∈ w_files w →
  resolve E lk ≠ resolve E lf →
  (release E (VStr lk) ;;
   logfile <- getitem cfg "logfile" ;;
   email_recipient <- getitem cfg "email_recipient" ;;
   send_email E logfile email_recipient) w
  = (Ok tt,
     mk_world (w_files w ∖ {[resolve E lk]}) (w_log w)
       (w_trace w ++ [EvRemove lk] ++ (if which_mail E then [EvMail rc lf] else []))).
Proof.
  intros Hlf Hrc [Hlfne _]%open_for_writing_granted [Hlkne _]%open_for_writing_granted
    Hlk Hlfin Hne.
  apply finally_releases_then_notifies; try done; by apply file_at_true.
Qed.

(** A marker that is absent once the log file is there names another file. *)
Lemma free_marker_is_not_the_log (E : Env) (lf lk : string) (files : gset string) :
  open_for_writing E lk = None →
  file_at E lk ({[resolve E lf]} ∪ files) = false →
  resolve E lk ∉ {[resolve E lf]} ∪ files.
Proof.
  intros [Hne _]%open_for_writing_granted Hat Hin.
  assert (file_at E lk ({[resolve E lf]} ∪ files) = true) by by apply file_at_true.
  congruence.
Qed.

(** C3, as amended: each fatal condition ends the run with a non-zero exit
    status.  A configuration file that does not parse ends the run at once
    and leaves the world as it was.  A lock that is already held, found once
    the log file has been opened, ends the run before the lock is taken:
    the world's trace is unchanged, and the marker that was found stays in
    place.  A listing failure happens while the lock is held, that is, once
    the log file has been opened and the marker, absent until then, has
    been created: the lock is released and then the notifier is invoked
    before the exit. *)
Theorem C3_fatal_conditions (E : Env) (args : Args) (w : world) :
  (file_at E (config args) (w_files w) = true →
   yaml_safe_load E (config args) = None →
   ∃ r, main E args w = (r, w) ∧ exit_status r ≠ 0)
  ∧ (∀ cfg lf lk,
       load_config E (config args) w = (Ok cfg, w) →
       cfg !! "logfile" = Some (VStr lf) →
       cfg !! "lockfile" = Some (VStr lk) →
       open_for_writing E lf = None →
       file_at E lk ({[resolve E lf]} ∪ w_files w) = true →
       ∃ r w', main E args w = (r, w')
               ∧ exit_status r ≠ 0
               ∧ w_trace w' = w_trace w
               ∧ file_at E lk (w_files w') = true)
  ∧ (∀ cfg lf lk rc d,
       load_config E (config args) w = (Ok cfg, w) →
       cfg !! "logfile" = Some (VStr lf) →
       cfg !! "lockfile" = Some (VStr lk) →
       cfg !! "email_recipient" = Some (VStr rc) →
       cfg !! "retention_policies" = Some (VDict d) →
       open_for_writing E lf = None →
       open_for_writing E lk = None →
       file_at E lk ({[resolve E lf]} ∪ w_files w) = false →
       let res := ext_tool E (w_trace w ++ [EvCreate lk]) list_cmd in
       returncode res ≠ 0 →
       ∃ r w', main E args w = (r, w')
               ∧ exit_status r ≠ 0
               ∧ file_at E lk (w_files w') = false
               ∧ w_trace w'
                 = w_trace w
                   ++ [EvCreate lk; EvCmd list_cmd res; EvRemove lk]
                   ++ (if which_mail E then [EvMail rc lf] else [])).
Proof.
  split; [|split].
  - intros Hin Hy. exists (Raise YAMLError). split; [|done].
    unfold main, bind at 1. by rewrite load_config_parse_error.
  - intros cfg lf lk Hload Hlf Hlk Hopen Hin. eexists _, _.
    split; [by eapply main_lock_held|]. split; [done|]. split; [done|]. exact Hin.
  - intros cfg lf lk rc d Hload Hlf Hlk Hrc Hd Hopen Hopenlk Hfree res Hcode.
    rewrite (main_locked E args w cfg lf lk) by done.
    unfold try_finally, bind at 1.
    assert (Hage : ∃ a, ∀ w1, age_or_policy args cfg w1 = (Ok a, w1)).
    { unfold age_or_policy, bind, getitem. rewrite Hd.
      destruct (age args) as [a|]; [destruct (negb (a =? 0))|]; by eexists. }
    destruct Hage as [a Hage]. rewrite Hage.
    unfold cleanup_snapshots, bind at 1.
    rewrite load_snapshots_failed by exact Hcode. cbn [w_trace w_log w_files]. fold res.
    rewrite (finally_after_lock E cfg lf lk rc); cbn [w_files w_trace w_log].
    + eexists _, _. split; [reflexivity|]. split; [done|].
      split; [apply file_at_after_remove|]. by rewrite <- !app_assoc.
    + exact Hlf.
    + exact Hrc.
    + exact Hopen.
    + exact Hopenlk.
    + apply in_after_create.
    + apply elem_of_union_r, in_after_create.
    + intros Heq. apply (free_marker_is_not_the_log E lf lk (w_files w)); [done..|].
      rewrite Heq. apply in_after_create.
Qed.

Lemma C3_fatal_conditions_witness :
  (∃ r, main env_bad_yaml args_weekly w_configured = (r, w_configured) ∧ exit_status r ≠ 0)
  ∧ (∃ r w', main env_scenario args_weekly w_locked = (r, w')
             ∧ exit_status r ≠ 0
             ∧ w_trace w' = w_trace w_locked
             ∧ file_at env_scenario lock_path (w_files w') = true)
  ∧ (∃ r w', main env_no_pool args_weekly w0 = (r, w')
             ∧ exit_status r ≠ 0
             ∧ file_at env_no_pool lock_path (w_files w') = false
             ∧ w_trace w'
               = w_trace w0
                 ++ [EvCreate lock_path;
                     EvCmd list_cmd (failed "cannot open 'tank': no such pool");
                     EvRemove lock_path]
                 ++ [EvMail "admin@example.com" log_path]).
Proof.
  split; [|split].
  - apply (proj1 (C3_fatal_conditions env_bad_yaml args_weekly w_configured));
      vm_compute; reflexivity.
  - apply (proj1 (proj2 (C3_fatal_conditions env_scenario args_weekly w_locked))
             DEFAULT_CONFIG log_path lock_path); vm_compute; reflexivity.
  - apply (proj2 (proj2 (C3_fatal_conditions env_no_pool args_weekly w0))
             DEFAULT_CONFIG log_path lock_path "admin@example.com" DEFAULT_POLICIES);
      vm_compute; first [reflexivity | discriminate].
Defined.

(** C3 as stated fails: when the lock is already held the run exits with
    status 1 without removing the marker and without mailing the log,
    although the host has a mailer and the log file exists. *)
Lemma C3_counterexample :
  fst run_locked = Raise (SystemExit 1)
  ∧ which_mail env_scenario = true
  ∧ log_path ∈ w_files (snd run_locked)
  ∧ lock_path ∈ w_files (snd run_locked)
  ∧ ¬ (EvRemove lock_path ∈ w_trace (snd run_locked)
       ∨ ∃ rc lf, EvMail rc lf ∈ w_trace (snd run_locked)).
Proof.
  assert (Htrace : w_trace (snd run_locked) = []) by (vm_compute; reflexivity).
  split; [vm_compute; reflexivity|]. split; [reflexivity|].
  split; [vm_compute; reflexivity|]. split; [vm_compute; reflexivity|].
  rewrite Htrace. intros [H | (rc & lf & H)]; by apply elem_of_nil in H.
Qed.

Lemma C10_unknown_pattern_zero_days_witness :
  age_or_policy args_hourly DEFAULT_CONFIG w0 = (Ok 0, w0)
  ∧ (∀ s t w1,
       Datetime.strptime s = Some t →
       micros t ≤ micros (clock env_scenario (w_trace w1)) →
       is_older_than env_scenario s 0 w1 = (Ok true, w1))
  ∧ (∀ snap tr t,
       let res := ext_tool env_scenario tr (creation_cmd snap) in
       returncode res = 0 →
       Datetime.strptime (Str.strip (stdout res)) = Some t →
       micros t ≤ micros (clock env_scenario (tr ++ [EvCmd (creation_cmd snap) res])) →
       eligible env_scenario 0 snap tr = true).
Proof.
  apply (C10_unknown_pattern_zero_days env_scenario args_hourly DEFAULT_CONFIG
           DEFAULT_POLICIES w0); reflexivity.
Defined.

(** With the unknown pattern [hourly] a snapshot made a minute ago is eligible. *)
Example unknown_pattern_fresh_snapshot :
  eligible
    (plain_env (table_tool [] (ok "Thu Feb 13 02:59 2025"))
       (λ _, Datetime.mk_datetime 2025 2 13 3 0 0 0) no_config true)
    0 "tank@hourly-1" []
  = true.
Proof. vm_compute. reflexivity. Qed.

(** * Properties beyond the claims *)

(** ** The configuration loader *)

Lemma default_has_required_keys (k : string) :
  k ∈ REQUIRED_KEYS → is_Some (DEFAULT_CONFIG !! k).
Proof.
  unfold REQUIRED_KEYS. rewrite !elem_of_cons, elem_of_nil.
  intros [-> | [-> | [-> | [-> | []]]]]; by eexists.
Qed.

Lemma load_config_complete
    (E : Env) (path : string) (w : world) (cfg : gmap string value) (w' : world) :
  load_config E path w = (Ok cfg, w') →
  w' = w ∧ ∀ k, k ∈ REQUIRED_KEYS → is_Some (cfg !! k).
Proof.
  intros Hload. destruct (file_at E path (w_files w)) eqn:Hat.
  - destruct (yaml_safe_load E path) as [data|] eqn:Hy.
    + rewrite (load_config_override E path w data) in Hload by done.
      simplify_eq. split; [done|]. intros k Hk. rewrite dict_update_lookup.
      destruct (or_empty data !! k); [by eexists | by apply default_has_required_keys].
    + rewrite load_config_parse_error in Hload by done. done.
  - rewrite load_config_missing in Hload by done. simplify_eq.
    split; [done|]. apply default_has_required_keys.
Qed.

(** X1: whatever the override file holds, a configuration that loads has
    all four keys that the script reads, and loading changes nothing in the
    world. *)
Theorem X1_load_config_has_required_keys
    (E : Env) (path : string) (w : world) (cfg : gmap string value) (w' : world) :
  load_config E path w = (Ok cfg, w') →
  w' = w ∧ ∀ k, k ∈ REQUIRED_KEYS → is_Some (cfg !! k).
Proof. apply load_config_complete. Qed.

Lemma X1_load_config_has_required_keys_witness :
  ∃ cfg, load_config env_override DEFAULT_CONFIG_PATH w_configured = (Ok cfg, w_configured)
         ∧ ∀ k, k ∈ REQUIRED_KEYS → is_Some (cfg !! k).
Proof.
  eexists. split; [vm_compute; reflexivity|].
  apply (X1_load_config_has_required_keys env_override DEFAULT_CONFIG_PATH
           w_configured _ w_configured).
  vm_compute. reflexivity.
Defined.

(** X2: an override file that holds nothing, an empty document or an empty
    mapping, gives the built-in defaults, as a missing file does. *)
Theorem X2_empty_override_is_default
    (E : Env) (path : string) (w : world) (data : yaml_doc) :
  yaml_safe_load E path = Some data →
  or_empty data = ∅ →
  load_config E path w = (Ok DEFAULT_CONFIG, w).
Proof.
  intros Hy Hempty. destruct (file_at E path (w_files w)) eqn:Hat.
  - rewrite (load_config_override E path w data) by done.
    rewrite Hempty. unfold dict_update. by rewrite (left_id_L ∅ (∪)).
  - by apply load_config_missing.
Qed.

Lemma X2_empty_override_is_default_witness :
  load_config env_no_pool DEFAULT_CONFIG_PATH w_configured = (Ok DEFAULT_CONFIG, w_configured)
  ∧ load_config (plain_env (table_tool [] (ok "")) at_3am (λ _, Some (DocMap ∅)) true)
      DEFAULT_CONFIG_PATH w_configured
    = (Ok DEFAULT_CONFIG, w_configured).
Proof.
  split.
  - apply (X2_empty_override_is_default env_no_pool DEFAULT_CONFIG_PATH
             w_configured DocNone); reflexivity.
  - apply (X2_empty_override_is_default _ DEFAULT_CONFIG_PATH w_configured (DocMap ∅));
      reflexivity.
Defined.

(** ** The run lock *)

(** X3: whenever the lock returns a handle, releasing through the handle
    leaves the files and the log as they were, with the marker written and
    removed in the trace.  On a path whose file exists the lock is refused
    with exit status 1 and neither the files nor the trace change.  On a
    free path where the marker cannot be created, the empty path among
    them, the exception of [open] reaches the caller and nothing changes.
    On a free path where the marker can be created, the lock returns a
    handle. *)
Theorem X3_lock_round_trip (E : Env) (lk : string) (w : world) :
  (∀ handle w1,
     lock_or_exit E (VStr lk) w = (Ok handle, w1) →
     ∃ w2,
       handle w1 = (Ok tt, w2)
       ∧ w_files w2 = w_files w
       ∧ w_log w2 = w_log w
       ∧ w_trace w2 = w_trace w ++ [EvCreate lk; EvRemove lk])
  ∧ (file_at E lk (w_files w) = true →
     ∃ w1,
       lock_or_exit E (VStr lk) w = (Raise (SystemExit 1), w1)
       ∧ w_files w1 = w_files w
       ∧ w_trace w1 = w_trace w)
  ∧ (∀ err,
       file_at E lk (w_files w) = false →
       open_for_writing E lk = Some err →
       lock_or_exit E (VStr lk) w = (Raise (exn_of_oserror err), w))
  ∧ (file_at E lk (w_files w) = false →
     open_for_writing E lk = None →
     ∃ handle w1, lock_or_exit E (VStr lk) w = (Ok handle, w1)).
Proof.
  split; [|split; [|split]].
  - intros handle w1 Hrun.
    apply lock_or_exit_returns in Hrun as (Hfree & Hopen & -> & ->).
    pose proof Hopen as [Hne _]%open_for_writing_granted.
    assert (Hout : resolve E lk ∉ w_files w).
    { intros Hin. assert (file_at E lk (w_files w) = true) by by apply file_at_true.
      congruence. }
    eexists. split; [by apply release_present, file_at_after_create|]. simpl.
    split; [|split; [done | by rewrite <- app_assoc]].
    apply set_eq. intros x.
    rewrite elem_of_difference, elem_of_union, !elem_of_singleton.
    split; [tauto|]. intros Hx. split; [by right | by intros ->].
  - intros Hheld. eexists. split; [by apply lock_or_exit_held|]. done.
  - intros err Hfree Herr. by apply lock_or_exit_refused.
  - intros Hfree Hopen. eexists _, _. by apply lock_or_exit_free.
Qed.

Lemma X3_lock_round_trip_witness :
  (∃ handle w1 w2,
     lock_or_exit env_scenario (VStr lock_path) w0 = (Ok handle, w1)
     ∧ handle w1 = (Ok tt, w2)
     ∧ w_files w2 = w_files w0
     ∧ w_log w2 = w_log w0
     ∧ w_trace w2 = w_trace w0 ++ [EvCreate lock_path; EvRemove lock_path])
  ∧ (∃ w1,
       lock_or_exit env_scenario (VStr lock_path) w_locked = (Raise (SystemExit 1), w1)
       ∧ w_files w1 = w_files w_locked
       ∧ w_trace w1 = w_trace w_locked)
  ∧ lock_or_exit env_readonly (VStr lock_path) w0 = (Raise PermissionError, w0)
  ∧ lock_or_exit env_scenario (VStr "") w0 = (Raise FileNotFoundError, w0).
Proof.
  split; [|split; [|split]].
  - destruct (proj2 (proj2 (proj2 (X3_lock_round_trip env_scenario lock_path w0))))
      as (handle & w1 & Hrun); [reflexivity | reflexivity |].
    exists handle, w1.
    destruct (proj1 (X3_lock_round_trip env_scenario lock_path w0) handle w1 Hrun)
      as (w2 & Hrel & Hback).
    exists w2. split; [exact Hrun|]. split; [exact Hrel | exact Hback].
  - apply (proj1 (proj2 (X3_lock_round_trip env_scenario lock_path w_locked))).
    vm_compute. reflexivity.
  - apply (proj1 (proj2 (proj2 (X3_lock_round_trip env_readonly lock_path w0))) EACCES);
      reflexivity.
  - apply (proj1 (proj2 (proj2 (X3_lock_round_trip env_scenario "" w0))) ENOENT);
      reflexivity.
Defined.

(** ** The age check *)

(** X4: the age check is monotone: a snapshot that is old enough for a
    threshold is old enough for every smaller one, and stays old enough
    when the clock moves forward. *)
Theorem X4_is_older_than_monotone
    (E : Env) (s : string) (t : Datetime.datetime) :
  Datetime.strptime s = Some t →
  (∀ N M w, M ≤ N →
     is_older_than E s N w = (Ok true, w) → is_older_than E s M w = (Ok true, w))
  ∧ (∀ N w1 w2,
       micros (clock E (w_trace w1)) ≤ micros (clock E (w_trace w2)) →
       is_older_than E s N w1 = (Ok true, w1) → is_older_than E s N w2 = (Ok true, w2)).
Proof.
  intros Hp. split.
  - intros N M w HMN. rewrite !(is_older_than_parsed E s t) by done.
    intros [= Hold]. apply Z.leb_le in Hold. do 2 f_equal. apply Z.leb_le. lia.
  - intros N w1 w2 Hclock. rewrite !(is_older_than_parsed E s t) by done.
    intros [= Hold]. apply Z.leb_le in Hold. do 2 f_equal. apply Z.leb_le.
    etrans; [exact Hold|]. unfold elapsed_days.
    apply Z.div_le_mono; [unfold DAY; lia | lia].
Qed.

Lemma X4_is_older_than_monotone_witness :
  (∀ N M w, M ≤ N →
     is_older_than env_scenario "Tue Jan 14 03:00 2025" N w = (Ok true, w) →
     is_older_than env_scenario "Tue Jan 14 03:00 2025" M w = (Ok true, w))
  ∧ (∀ N w1 w2,
       micros (clock env_scenario (w_trace w1)) ≤ micros (clock env_scenario (w_trace w2)) →
       is_older_than env_scenario "Tue Jan 14 03:00 2025" N w1 = (Ok true, w1) →
       is_older_than env_scenario "Tue Jan 14 03:00 2025" N w2 = (Ok true, w2)).
Proof.
  apply (X4_is_older_than_monotone env_scenario "Tue Jan 14 03:00 2025"
           (Datetime.mk_datetime 2025 1 14 3 0 0 0)).
  vm_compute. reflexivity.
Defined.

(** X5: a snapshot whose creation time lies after now is never old enough
    for a threshold that is not negative. *)
Theorem X5_future_snapshot_not_older
    (E : Env) (s : string) (t : Datetime.datetime) (N : Z) (w : world) :
  Datetime.strptime s = Some t →
  micros (clock E (w_trace w)) < micros t →
  0 ≤ N →
  is_older_than E s N w = (Ok false, w).
Proof.
  intros Hp Hfuture HN. rewrite (is_older_than_parsed E s t) by done.
  do 2 f_equal. apply Z.leb_gt. unfold elapsed_days.
  assert ((micros (clock E (w_trace w)) - micros t) / DAY < 0); [|lia].
  apply Z.div_lt_upper_bound; unfold DAY; lia.
Qed.

Lemma X5_future_snapshot_not_older_witness :
  is_older_than env_scenario "Thu Feb 13 03:01 2025" 0 w0 = (Ok false, w0).
Proof.
  apply (X5_future_snapshot_not_older env_scenario "Thu Feb 13 03:01 2025"
           (Datetime.mk_datetime 2025 2 13 3 1 0 0) 0 w0);
    [vm_compute; reflexivity | vm_compute; reflexivity | lia].
Defined.

(** ** The enumerator *)

Lemma filter_sublist_mono {A} (f g : A → bool) (l : list A) :
  (∀ x, f x = true → g x = true) →
  List.filter f l `sublist_of` List.filter g l.
Proof.
  intros Hfg. induction l as [|x l IH]; simpl; [constructor|].
  destruct (f x) eqn:Hf.
  - rewrite (Hfg x Hf). by constructor.
  - destruct (g x); [by constructor | exact IH].
Qed.

Lemma keeps_without_pool (pattern : string) (pool : option string) (X : string) :
  keeps pattern pool X = true → keeps pattern None X = true.
Proof.
  unfold keeps. rewrite !andb_true_iff. intros [Hc _]. by split.
Qed.

(** X6: giving a pool only narrows the result: on the same listing, the
    snapshots found with a pool are, in the same order, among those found
    without one. *)
Theorem X6_pool_only_narrows
    (E : Env) (pattern : string) (pool : option string) (w : world) :
  returncode (ext_tool E (w_trace w) list_cmd) = 0 →
  ∃ l_pool l_all w',
    load_snapshots E pattern pool w = (Ok l_pool, w')
    ∧ load_snapshots E pattern None w = (Ok l_all, w')
    ∧ l_pool `sublist_of` l_all.
Proof.
  intros Hcode. eexists _, _, _.
  split; [by apply load_snapshots_ok|]. split; [by apply load_snapshots_ok|].
  apply filter_sublist_mono, keeps_without_pool.
Qed.

Lemma X6_pool_only_narrows_witness :
  ∃ l_pool l_all w',
    load_snapshots env_mixed "weekly" (Some "tank") w0 = (Ok l_pool, w')
    ∧ load_snapshots env_mixed "weekly" None w0 = (Ok l_all, w')
    ∧ l_pool `sublist_of` l_all.
Proof.
  apply (X6_pool_only_narrows env_mixed "weekly" (Some "tank") w0). reflexivity.
Defined.

Lemma contains_empty (s : string) : Str.contains "" s = true.
Proof. by destruct s. Qed.

Lemma filter_all {A} (f : A → bool) (l : list A) :
  (∀ x, f x = true) → List.filter f l = l.
Proof.
  intros Hf. induction l as [|x l IH]; simpl; [done|]. by rewrite Hf, IH.
Qed.

(** X7: the empty pattern matches everything: without a pool the
    enumerator returns every identifier of the listing. *)
Theorem X7_empty_pattern_matches_all (E : Env) (w : world) :
  let res := ext_tool E (w_trace w) list_cmd in
  returncode res = 0 →
  ∃ w', load_snapshots E "" None w = (Ok (identifiers (Str.strip (stdout res))), w').
Proof.
  intros res Hcode. eexists. rewrite load_snapshots_ok by exact Hcode. fold res.
  rewrite filter_all; [reflexivity|]. intros X. unfold keeps.
  by rewrite contains_empty.
Qed.

Lemma X7_empty_pattern_matches_all_witness :
  ∃ w', load_snapshots env_mixed "" None w0
        = (Ok (identifiers (Str.strip (stdout (ext_tool env_mixed (w_trace w0) list_cmd)))), w').
Proof.
  apply (X7_empty_pattern_matches_all env_mixed w0). reflexivity.
Defined.

Lemma lstrip_all_space (s : string) :
  all_chars Str.is_space s = true → Str.lstrip s = "".
Proof.
  induction s as [|c s IH]; simpl; [done|].
  intros [Hc Hs]%andb_true_iff. rewrite Hc. by apply IH.
Qed.

Lemma strip_all_space (s : string) :
  all_chars Str.is_space s = true → Str.strip s = "".
Proof. intros H. unfold Str.strip. by rewrite lstrip_all_space. Qed.

(** X8: when the listing succeeds with nothing but white space, the
    cleanup logs that no snapshot matched and returns; the listing is the
    only command of the run. *)
Theorem X8_blank_listing_finds_nothing
    (E : Env) (pattern : string) (age_days : Z) (recursive dry_run : bool)
    (pool : option string) (cfg : gmap string value) (w : world) :
  let res := ext_tool E (w_trace w) list_cmd in
  returncode res = 0 →
  all_chars Str.is_space (stdout res) = true →
  cleanup_snapshots E pattern age_days recursive dry_run pool cfg w
  = (Ok tt,
     mk_world (w_files w)
       (w_log w ++ [(INFO, "No snapshots matching '" +:+ pattern +:+ "' found.")])
       (w_trace w ++ [EvCmd list_cmd res])).
Proof.
  intros res Hcode Hblank. unfold cleanup_snapshots, bind.
  rewrite load_snapshots_ok by exact Hcode. fold res.
  by rewrite strip_all_space.
Qed.

Lemma X8_blank_listing_finds_nothing_witness :
  cleanup_snapshots env_blank "weekly" 30 false false None DEFAULT_CONFIG w0
  = (Ok tt,
     mk_world ∅ [(INFO, "No snapshots matching 'weekly' found.")]
       [EvCmd list_cmd (ok (NL +:+ " " +:+ NL))]).
Proof.
  apply (X8_blank_listing_finds_nothing env_blank "weekly" 30 false false None
           DEFAULT_CONFIG w0); reflexivity.
Defined.

(** ** The loop over the snapshots *)

(** X9: a fetch that succeeds with nothing but white space is passed over
    in silence: no warning, no parse, no destroy, and the loop goes on. *)
Theorem X9_blank_creation_skipped_silently
    (E : Env) (age_days : Z) (recursive dry_run : bool)
    (snap : string) (n : Z) (w : world) :
  let res := ext_tool E (w_trace w) (creation_cmd snap) in
  returncode res = 0 →
  all_chars Str.is_space (stdout res) = true →
  cleanup_step E age_days recursive dry_run snap n w
  = (Ok n, mk_world (w_files w) (w_log w) (w_trace w ++ [EvCmd (creation_cmd snap) res])).
Proof.
  intros res Hcode Hblank. subst res. rewrite cleanup_step_unfold. cbv zeta.
  rewrite Hcode. rewrite (strip_all_space _ Hblank). reflexivity.
Qed.

Lemma X9_blank_creation_skipped_silently_witness :
  cleanup_step env_blank 30 false false snap_10 0 w0
  = (Ok 0, mk_world ∅ [] [EvCmd (creation_cmd snap_10) (ok (NL +:+ " " +:+ NL))]).
Proof.
  apply (X9_blank_creation_skipped_silently env_blank 30 false false snap_10 0 w0);
    reflexivity.
Defined.

Lemma cleanup_step_outcome (E : Env) (age_days : Z) (recursive dry_run : bool)
    (snap : string) (n : Z) (w : world) r w' :
  cleanup_step E age_days recursive dry_run snap n w = (r, w') →
  (evaluable E snap (w_trace w) = true ∧ ∃ n', r = Ok n')
  ∨ (evaluable E snap (w_trace w) = false ∧ r = Raise ValueError).
Proof.
  intros H. unfold evaluable. step_cases H;
    repeat match goal with
           | Hc : _ = _ |- _ => rewrite Hc
           end; simpl; eauto.
Qed.

Lemma cleanup_loop_raises_value_error (E : Env) (age_days : Z)
    (recursive dry_run : bool) (snaps : list string) (n : Z) (w : world) e w' :
  for_each (cleanup_step E age_days recursive dry_run) snaps n w = (Raise e, w') →
  e = ValueError.
Proof.
  revert n w. induction snaps as [|snap snaps IH]; intros n w Hrun; simpl in Hrun.
  - done.
  - unfold bind in Hrun.
    destruct (cleanup_step E age_days recursive dry_run snap n w) as [[n1|e1] w1] eqn:Hs.
    + by eapply IH.
    + simplify_eq. by destruct (cleanup_step_outcome _ _ _ _ _ _ _ _ _ Hs)
        as [(_ & n' & ?) | (_ & [= ->])].
Qed.

(** X10: the loop over the snapshots runs to its end exactly when the age
    of every snapshot can be evaluated at its turn (the fetch fails, or
    gives nothing, or gives a string that parses); a destroy that fails
    never ends it, and when it ends early it is with [ValueError]. *)
Theorem X10_loop_completes_iff_evaluable
    (E : Env) (age_days : Z) (recursive dry_run : bool)
    (snaps : list string) (n : Z) (w : world) r w' :
  for_each (cleanup_step E age_days recursive dry_run) snaps n w = (r, w') →
  ((∃ n', r = Ok n') ↔
     ∀ pre snap post n1 w1,
       snaps = pre ++ snap :: post →
       for_each (cleanup_step E age_days recursive dry_run) pre n w = (Ok n1, w1) →
       evaluable E snap (w_trace w1) = true)
  ∧ (∀ e, r = Raise e → e = ValueError).
Proof.
  intros Hrun. split; [split|].
  - intros [n' ->] pre snap post n1 w1 -> Hpre.
    rewrite for_each_app, Hpre in Hrun. simpl in Hrun. unfold bind in Hrun.
    destruct (cleanup_step E age_days recursive dry_run snap n1 w1) as [r2 w2] eqn:Hs.
    destruct (cleanup_step_outcome _ _ _ _ _ _ _ _ _ Hs) as [[Hev _] | [_ ->]]; done.
  - intros Hev. destruct (cleanup_loop_completes _ _ _ _ _ _ _ Hev) as (n' & w2 & Hok).
    rewrite Hok in Hrun. simplify_eq. by eexists.
  - intros e ->. by eapply cleanup_loop_raises_value_error.
Qed.

Lemma X10_loop_completes_iff_evaluable_witness :
  fst loop_busy = Ok 1
  ∧ ((∃ n', fst loop_busy = Ok n') ↔
       ∀ pre snap post n1 w1,
         snaps_scenario = pre ++ snap :: post →
         for_each (cleanup_step env_busy 30 false false) pre 0 w0 = (Ok n1, w1) →
         evaluable env_busy snap (w_trace w1) = true)
  ∧ (∀ e, fst loop_busy = Raise e → e = ValueError).
Proof.
  split; [vm_compute; reflexivity|].
  apply (X10_loop_completes_iff_evaluable env_busy 30 false false snaps_scenario 0 w0
           (fst loop_busy) (snd loop_busy)).
  vm_compute. reflexivity.
Defined.

Lemma count_destroy_app (evs1 evs2 : list event) :
  count_destroy (evs1 ++ evs2) = count_destroy evs1 + count_destroy evs2.
Proof. unfold count_destroy. rewrite List.filter_app, length_app. lia. Qed.

(** One turn issues one query and at most one destroy, and counts no more
    than it destroyed. *)
Lemma cleanup_step_accounting (E : Env) (age_days : Z) (recursive dry_run : bool)
    (snap : string) (n : Z) (w : world) r w' :
  cleanup_step E age_days recursive dry_run snap n w = (r, w') →
  ∃ evs logs,
    grows w w' evs logs
    ∧ Z.of_nat (length evs) = 1 + count_destroy evs
    ∧ 0 ≤ count_destroyed evs ≤ count_destroy evs ≤ 1.
Proof.
  intros H. destruct recursive; step_cases H; eexists _, _;
    (split;
     [unfold grows; simpl;
      split; [reflexivity|];
      split; [rewrite <- ?app_assoc; reflexivity
             | first [reflexivity | symmetry; apply app_nil_r]]
     |]);
    unfold count_destroyed, count_destroy; simpl;
    repeat match goal with
           | Hc : (returncode _ =? 0) = _ |- _ => rewrite Hc
           end; simpl; lia.
Qed.

(** X11: the accounting of the loop: one creation query per snapshot
    looked at and at most one destroy invocation per snapshot; when the loop
    runs to its end the events are exactly the queries, one per snapshot,
    and the destroy invocations, and the counter has grown by no more than
    the number of destroy invocations. *)
Theorem X11_loop_accounting
    (E : Env) (age_days : Z) (recursive dry_run : bool)
    (snaps : list string) (n : Z) (w : world) r w' :
  for_each (cleanup_step E age_days recursive dry_run) snaps n w = (r, w') →
  ∃ evs logs,
    grows w w' evs logs
    ∧ 0 ≤ count_destroyed evs ≤ count_destroy evs ≤ Z.of_nat (length snaps)
    ∧ Z.of_nat (length evs) ≤ Z.of_nat (length snaps) + count_destroy evs
    ∧ (∀ n', r = Ok n' →
         Z.of_nat (length evs) = Z.of_nat (length snaps) + count_destroy evs
         ∧ n ≤ n' ≤ n + count_destroy evs).
Proof.
  revert n w. induction snaps as [|snap snaps IH]; intros n w Hrun; simpl in Hrun.
  - unfold ret in Hrun. simplify_eq. exists [], []. split; [apply grows_refl|].
    unfold count_destroyed, count_destroy. simpl. repeat split; try lia.
    all: intros; simplify_eq; lia.
  - unfold bind in Hrun.
    destruct (cleanup_step E age_days recursive dry_run snap n w) as [r1 w1] eqn:Hstep.
    destruct (cleanup_step_accounting _ _ _ _ _ _ _ _ _ Hstep)
      as (evs1 & logs1 & Hg1 & Hlen1 & Hc1).
    destruct (cleanup_step_grows _ _ _ _ _ _ _ _ _ Hstep)
      as (evs1' & logs1' & Hg1' & Hn1 & _).
    destruct (grows_inj _ _ _ _ _ _ Hg1 Hg1') as [<- <-].
    destruct r1 as [n1|e].
    + destruct (IH _ _ Hrun) as (evs2 & logs2 & Hg2 & Hc2 & Hlen2 & Hok2).
      exists (evs1 ++ evs2), (logs1 ++ logs2).
      split; [by eapply grows_trans|].
      rewrite count_destroyed_app, count_destroy_app, length_app. cbn [length].
      split; [lia|]. split; [lia|].
      intros n' ->. destruct (Hok2 n' eq_refl) as [Hl Hb].
      specialize (Hn1 n1 eq_refl). lia.
    + simplify_eq. exists evs1, logs1. split; [done|]. cbn [length].
      split; [lia|]. split; [lia|]. intros n' [=].
Qed.

Lemma X11_loop_accounting_witness :
  ∃ evs logs,
    grows w0 (snd loop_busy) evs logs
    ∧ 0 ≤ count_destroyed evs ≤ count_destroy evs ≤ Z.of_nat (length snaps_scenario)
    ∧ Z.of_nat (length evs) ≤ Z.of_nat (length snaps_scenario) + count_destroy evs
    ∧ (∀ n', fst loop_busy = Ok n' →
         Z.of_nat (length evs) = Z.of_nat (length snaps_scenario) + count_destroy evs
         ∧ 0 ≤ n' ≤ 0 + count_destroy evs).
Proof.
  apply (X11_loop_accounting env_busy 30 false false snaps_scenario 0 w0
           (fst loop_busy) (snd loop_busy)).
  vm_compute. reflexivity.
Defined.

(** With the tool that refuses the oldest snapshot: three queries, two
    destroy invocations, one of them successful. *)
Example loop_busy_counts :
  fst loop_busy = Ok 1
  ∧ length (w_trace (snd loop_busy)) = 5%nat
  ∧ count_destroy (w_trace (snd loop_busy)) = 2
  ∧ count_destroyed (w_trace (snd loop_busy)) = 1
  ∧ last (w_log (snd loop_busy))
    = Some (ERROR, "Failed to destroy tank@weekly-2024-12-30: dataset is busy").
Proof. vm_compute. repeat split. Qed.

Lemma justified_no_destroy (E : Env) (age_days : Z) (recursive : bool)
    (snaps : list string) (tr0 evs : list event) :
  List.filter is_destroy evs = [] → justified E age_days recursive snaps tr0 evs.
Proof.
  intros Hnone pre cmd res post -> Hd.
  rewrite List.filter_app in Hnone. simpl in Hnone, Hd. rewrite Hd in Hnone.
  by destruct (List.filter is_destroy pre).
Qed.

Lemma justified_app (E : Env) (age_days : Z) (recursive : bool)
    (snaps1 snaps2 : list string) (tr0 evs1 evs2 : list event) :
  justified E age_days recursive snaps1 tr0 evs1 →
  justified E age_days recursive snaps2 (tr0 ++ evs1) evs2 →
  justified E age_days recursive (snaps1 ++ snaps2) tr0 (evs1 ++ evs2).
Proof.
  intros H1 H2 pre cmd res post Heq Hd.
  apply app_eq_app in Heq as [l [[-> Hl] | [-> ->]]].
  - destruct l as [|e l]; simpl in Hl.
    + destruct (H2 [] cmd res post (eq_sym Hl) Hd) as (pre' & snap & Hpre & ? & ? & ?).
      by destruct pre'.
    + simplify_eq.
      destruct (H1 pre cmd res l eq_refl Hd) as (pre' & snap & -> & -> & Hin & Hel).
      exists pre', snap. rewrite elem_of_app. auto.
  - destruct (H2 l cmd res post eq_refl Hd) as (pre' & snap & -> & -> & Hin & Hel).
    exists (evs1 ++ pre'), snap. rewrite elem_of_app, !app_assoc. auto.
Qed.

Lemma cleanup_step_justified (E : Env) (age_days : Z) (recursive dry_run : bool)
    (snap : string) (n : Z) (w : world) r w' :
  cleanup_step E age_days recursive dry_run snap n w = (r, w') →
  ∃ evs logs,
    grows w w' evs logs ∧ justified E age_days recursive [snap] (w_trace w) evs.
Proof.
  intros H.
  destruct (eligible E age_days snap (w_trace w)) eqn:Hel.
  - destruct dry_run.
    + destruct (cleanup_step_eligible_dry_run E age_days recursive snap n w Hel)
        as (w2 & logs & Hs & Hg & _).
      rewrite Hs in H. simplify_eq. eexists _, _. split; [exact Hg|].
      by apply justified_no_destroy.
    + destruct (cleanup_step_eligible_live E age_days recursive snap n w Hel)
        as (w2 & logs & Hs & Hg).
      rewrite Hs in H. simplify_eq. eexists _, _. split; [exact Hg|].
      intros pre cmd res post Heq Hd.
      destruct pre as [|e1 [|e2 pre]]; simplify_eq/=.
      * exists [], snap. rewrite app_nil_r.
        split; [done|]. split; [done|]. split; [apply list_elem_of_here | done].
      * by destruct pre.
  - destruct (cleanup_step_grows _ _ _ _ _ _ _ _ _ H) as (evs & logs & Hg & _ & _).
    exists evs, logs. split; [done|]. apply justified_no_destroy.
    unfold eligible in Hel. step_cases H;
      destruct Hg as (_ & Ht & _); simpl in Ht;
      try (apply app_inv_head in Ht; by subst evs).
    all: exfalso; apply negb_false_iff in Hcase; rewrite Hcase in Hel; simpl in Hel;
      congruence.
Qed.

Lemma cleanup_loop_justified (E : Env) (age_days : Z) (recursive dry_run : bool)
    (snaps : list string) (n : Z) (w : world) r w' :
  for_each (cleanup_step E age_days recursive dry_run) snaps n w = (r, w') →
  ∃ evs logs,
    grows w w' evs logs ∧ justified E age_days recursive snaps (w_trace w) evs.
Proof.
  revert n w. induction snaps as [|snap snaps IH]; intros n w Hrun; simpl in Hrun.
  - unfold ret in Hrun. simplify_eq. exists [], []. split; [apply grows_refl|].
    by apply justified_no_destroy.
  - unfold bind in Hrun.
    destruct (cleanup_step E age_days recursive dry_run snap n w) as [r1 w1] eqn:Hstep.
    destruct (cleanup_step_justified _ _ _ _ _ _ _ _ _ Hstep) as (evs1 & logs1 & Hg1 & Hj1).
    destruct r1 as [n1|e].
    + destruct (IH _ _ Hrun) as (evs2 & logs2 & Hg2 & Hj2).
      exists (evs1 ++ evs2), (logs1 ++ logs2). split; [by eapply grows_trans|].
      apply (justified_app _ _ _ [snap] snaps); [done|].
      destruct Hg1 as (_ & <- & _). done.
    + simplify_eq. exists evs1, logs1. split; [done|].
      intros pre cmd res post Heq Hd.
      destruct (Hj1 pre cmd res post Heq Hd) as (pre' & s & ? & ? & Hin & ?).
      exists pre', s. repeat split; try done.
      apply list_elem_of_singleton in Hin as ->. apply list_elem_of_here.
Qed.

(** ** The cleanup *)

(** A cleanup only adds events and records, whatever its outcome. *)
Lemma cleanup_snapshots_grows
    (E : Env) (pattern : string) (age_days : Z) (recursive dry_run : bool)
    (pool : option string) (cfg : gmap string value) (w : world) r w' :
  cleanup_snapshots E pattern age_days recursive dry_run pool cfg w = (r, w') →
  ∃ evs logs, grows w w' evs logs.
Proof.
  intros Hrun. unfold cleanup_snapshots, bind in Hrun.
  destruct (decide (returncode (ext_tool E (w_trace w) list_cmd) = 0)) as [Hcode|Hcode].
  - rewrite load_snapshots_ok in Hrun by exact Hcode.
    destruct (List.filter _ _) as [|snap snaps].
    + unfold logging in Hrun. simplify_eq. by eexists [_], [_].
    + unfold destroy_snapshots, bind in Hrun.
      destruct (for_each _ _ 0 _) as [r1 w1] eqn:Hloop.
      destruct (cleanup_loop_grows _ _ _ _ _ _ _ _ _ Hloop) as (evs & logs & Hg & _).
      destruct Hg as (Hf & Ht & Hl). simpl in Hf, Ht, Hl.
      destruct r1 as [n|e]; unfold logging in Hrun; simplify_eq.
      * eexists (_ :: evs), (logs ++ [_]). unfold grows. simpl.
        by rewrite Hf, Ht, Hl, <- !app_assoc.
      * eexists (_ :: evs), logs. unfold grows.
        by rewrite Hf, Ht, Hl, <- !app_assoc.
  - rewrite load_snapshots_failed in Hrun by exact Hcode. simplify_eq.
    by eexists [_], [_].
Qed.

(** X12: the cleanup never destroys on its own account: every destroy
    invocation of a run is in live mode, comes right after the creation
    query of the same snapshot, names a snapshot that the enumerator kept
    (so one that contains the pattern and lies in the pool), and that
    snapshot passed the age check when it was looked at. *)
Theorem X12_every_destroy_is_justified
    (E : Env) (pattern : string) (age_days : Z) (recursive dry_run : bool)
    (pool : option string) (cfg : gmap string value) (w : world) r w' :
  cleanup_snapshots E pattern age_days recursive dry_run pool cfg w = (r, w') →
  ∃ evs,
    w_trace w' = w_trace w ++ evs
    ∧ ∀ pre cmd res post,
        evs = pre ++ EvCmd cmd res :: post →
        is_destroy (EvCmd cmd res) = true →
        dry_run = false
        ∧ ∃ pre' snap,
            pre = pre' ++ [EvCmd (creation_cmd snap)
                             (ext_tool E (w_trace w ++ pre') (creation_cmd snap))]
            ∧ cmd = destroy_cmd recursive snap
            ∧ keeps pattern pool snap = true
            ∧ eligible E age_days snap (w_trace w ++ pre') = true.
Proof.
  intros Hrun.
  destruct (cleanup_snapshots_grows _ _ _ _ _ _ _ _ _ _ Hrun) as (evs & logs & Hg).
  exists evs. split; [apply Hg|]. intros pre cmd res post Hevs Hd. split.
  { destruct dry_run; [|done].
    destruct (cleanup_snapshots_dry_run_no_destroy _ _ _ _ _ _ _ _ _ Hrun)
      as (evs' & Ht & Hnone).
    destruct Hg as (_ & Ht' & _). rewrite Ht' in Ht. apply app_inv_head in Ht as <-.
    subst evs. rewrite List.filter_app in Hnone. simpl in Hnone, Hd.
    rewrite Hd in Hnone. by destruct (List.filter is_destroy pre). }
  unfold cleanup_snapshots, bind in Hrun.
  destruct (decide (returncode (ext_tool E (w_trace w) list_cmd) = 0)) as [Hcode|Hcode].
  - rewrite load_snapshots_ok in Hrun by exact Hcode.
    set (matched := List.filter _ _) in Hrun.
    assert (Hkept : ∀ s, s ∈ matched → keeps pattern pool s = true).
    { intros s Hs. apply list_elem_of_In, filter_In in Hs. tauto. }
    destruct matched as [|snap snaps] eqn:Hm.
    + unfold logging in Hrun. simplify_eq. destruct Hg as (_ & Ht & _).
      simpl in Ht. apply app_inv_head in Ht.
      destruct pre as [|e [|e' pre]]; simplify_eq/=.
    + unfold destroy_snapshots, bind in Hrun.
      destruct (for_each _ _ 0 _) as [r1 w1] eqn:Hloop.
      destruct (cleanup_loop_justified _ _ _ _ _ _ _ _ _ Hloop) as (evs1 & logs1 & Hg1 & Hj).
      assert (Hw1 : w_trace w' = w_trace w1).
      { destruct r1; unfold logging in Hrun; by simplify_eq. }
      destruct Hg as (_ & Ht & _). destruct Hg1 as (_ & Ht1 & _). simpl in Ht1.
      rewrite Hw1, Ht1, <- app_assoc in Ht. apply app_inv_head in Ht. simpl in Ht.
      subst evs. destruct pre as [|e pre]; simplify_eq/=.
      destruct (Hj pre cmd res post eq_refl Hd) as (pre' & s & -> & -> & Hin & Hel).
      exists (EvCmd list_cmd (ext_tool E (w_trace w) list_cmd) :: pre'), s.
      rewrite <- app_assoc in Hel. simpl in Hel. rewrite <- app_assoc. simpl.
      split; [done|]. split; [done|]. split; [by apply Hkept | done].
  - rewrite load_snapshots_failed in Hrun by exact Hcode. simplify_eq.
    destruct Hg as (_ & Ht & _). simpl in Ht. apply app_inv_head in Ht.
    destruct pre as [|e [|e' pre]]; simplify_eq/=.
Qed.

Lemma X12_every_destroy_is_justified_witness :
  ∃ evs,
    w_trace (snd run_busy) = w_trace w0 ++ evs
    ∧ ∀ pre cmd res post,
        evs = pre ++ EvCmd cmd res :: post →
        is_destroy (EvCmd cmd res) = true →
        false = false
        ∧ ∃ pre' snap,
            pre = pre' ++ [EvCmd (creation_cmd snap)
                             (ext_tool env_busy (w_trace w0 ++ pre') (creation_cmd snap))]
            ∧ cmd = destroy_cmd false snap
            ∧ keeps "weekly" None snap = true
            ∧ eligible env_busy 30 snap (w_trace w0 ++ pre') = true.
Proof.
  apply (X12_every_destroy_is_justified env_busy "weekly" 30 false false None
           DEFAULT_CONFIG w0 (fst run_busy) (snd run_busy)).
  vm_compute. reflexivity.
Defined.

(** X13: in live mode no eligible snapshot is passed over: every snapshot
    that is eligible when the loop reaches it gets its destroy invocation,
    whether or not the loop later ends early. *)
Theorem X13_live_mode_destroys_every_eligible
    (E : Env) (age_days : Z) (recursive : bool) (snaps : list string)
    (w : world) (r : outcome unit) (w' : world) :
  destroy_snapshots E age_days recursive false snaps w = (r, w') →
  ∃ evs logs,
    grows w w' evs logs
    ∧ ∀ pre snap post n1 w1,
        snaps = pre ++ snap :: post →
        for_each (cleanup_step E age_days recursive false) pre 0 w = (Ok n1, w1) →
        eligible E age_days snap (w_trace w1) = true →
        ∃ res, EvCmd (destroy_cmd recursive snap) res ∈ evs.
Proof.
  unfold destroy_snapshots, bind. intros Hrun.
  destruct (for_each _ snaps 0 w) as [r1 w1] eqn:Hloop.
  destruct (cleanup_loop_grows _ _ _ _ _ _ _ _ _ Hloop) as (evs & logs & Hg & _).
  assert (Hall : ∀ pre snap post n1 w2,
            snaps = pre ++ snap :: post →
            for_each (cleanup_step E age_days recursive false) pre 0 w = (Ok n1, w2) →
            eligible E age_days snap (w_trace w2) = true →
            ∃ res, EvCmd (destroy_cmd recursive snap) res ∈ evs).
  { intros pre snap post n1 w2 -> Hpre Hel.
    rewrite for_each_app, Hpre in Hloop. simpl in Hloop. unfold bind in Hloop.
    destruct (cleanup_step_eligible_live E age_days recursive snap n1 w2 Hel)
      as (w3 & logs3 & Hstep & Hg3).
    rewrite Hstep in Hloop.
    destruct (cleanup_loop_grows _ _ _ _ _ _ _ _ _ Hpre) as (evs2 & logs2 & Hg2 & _).
    destruct (cleanup_loop_grows _ _ _ _ _ _ _ _ _ Hloop) as (evs4 & logs4 & Hg4 & _).
    pose proof (grows_trans _ _ _ _ _ _ _ (grows_trans _ _ _ _ _ _ _ Hg2 Hg3) Hg4) as Hsum.
    destruct (grows_inj _ _ _ _ _ _ Hg Hsum) as [-> _].
    eexists. rewrite !elem_of_app. left. right.
    apply list_elem_of_further, list_elem_of_here. }
  destruct r1 as [n|e]; unfold logging in Hrun; simplify_eq.
  - exists evs, (logs ++ [total_destroyed n]). split; [|exact Hall].
    destruct Hg as (? & ? & Hl). unfold grows; simpl. by rewrite Hl, app_assoc.
  - exists evs, logs. split; [done | exact Hall].
Qed.

Lemma X13_live_mode_destroys_every_eligible_witness :
  ∃ evs logs,
    grows w0 (snd destroy_busy) evs logs
    ∧ ∀ pre snap post n1 w1,
        snaps_scenario = pre ++ snap :: post →
        for_each (cleanup_step env_busy 30 false false) pre 0 w0 = (Ok n1, w1) →
        eligible env_busy 30 snap (w_trace w1) = true →
        ∃ res, EvCmd (destroy_cmd false snap) res ∈ evs.
Proof.
  apply (X13_live_mode_destroys_every_eligible env_busy 30 false snaps_scenario w0
           (fst destroy_busy) (snd destroy_busy)).
  vm_compute. reflexivity.
Defined.

(** ** The whole run *)

Lemma age_or_policy_world (args : Args) (cfg : gmap string value) (w : world) r w' :
  age_or_policy args cfg w = (r, w') → w' = w.
Proof.
  unfold age_or_policy, bind, getitem, get_policy_age, ret, raise.
  intros H. repeat case_match; by simplify_eq.
Qed.

Lemma load_config_world (E : Env) (path : string) (w : world) r w' :
  load_config E path w = (r, w') → w' = w.
Proof.
  unfold load_config, bind, os_path_exists, ret, raise.
  intros H. repeat case_match; by simplify_eq.
Qed.

(** The locked part of the run only adds events and records. *)
Lemma pipeline_grows (E : Env) (args : Args) (cfg : gmap string value) (w : world) r w' :
  pipeline E args cfg w = (r, w') → ∃ evs logs, grows w w' evs logs.
Proof.
  unfold pipeline, bind. intros H.
  destruct (age_or_policy args cfg w) as [[a|e] w1] eqn:Ha;
    apply age_or_policy_world in Ha as ->.
  - by eapply cleanup_snapshots_grows.
  - simplify_eq. exists [], []. apply grows_refl.
Qed.

(** Once the lock is taken, the run ends as its locked part ends, after
    the marker is removed and the notifier has run. *)
Lemma main_releases (E : Env) (args : Args) (w : world)
    (cfg : gmap string value) (lf lk rc : string) r1 w3 :
  load_config E (config args) w = (Ok cfg, w) →
  cfg !! "logfile" = Some (VStr lf) →
  cfg !! "lockfile" = Some (VStr lk) →
  cfg !! "email_recipient" = Some (VStr rc) →
  open_for_writing E lf = None →
  open_for_writing E lk = None →
  file_at E lk ({[resolve E lf]} ∪ w_files w) = false →
  pipeline E args cfg
    (mk_world ({[resolve E lk]} ∪ ({[resolve E lf]} ∪ w_files w)) (w_log w)
       (w_trace w ++ [EvCreate lk]))
  = (r1, w3) →
  ∃ evs w',
    main E args w = (r1, w')
    ∧ w_files w' = {[resolve E lf]} ∪ w_files w
    ∧ w_log w' = w_log w3
    ∧ w_trace w3 = w_trace w ++ [EvCreate lk] ++ evs
    ∧ w_trace w'
      = w_trace w ++ [EvCreate lk] ++ evs ++ [EvRemove lk]
        ++ (if which_mail E then [EvMail rc lf] else []).
Proof.
  intros Hload Hlf Hlk Hrc Hopen Hopenlk Hfree Hpipe.
  destruct (pipeline_grows _ _ _ _ _ _ Hpipe) as (evs & logs & Hf & Ht & Hl).
  simpl in Hf, Ht, Hl.
  rewrite (main_locked E args w cfg lf lk) by done.
  unfold try_finally. change (bind (age_or_policy args cfg) _) with (pipeline E args cfg).
  rewrite Hpipe.
  pose proof (free_marker_is_not_the_log E lf lk (w_files w) Hopenlk Hfree) as Hout.
  rewrite (finally_after_lock E cfg lf lk rc).
  - exists evs. eexists. split; [reflexivity|]. simpl. rewrite Hf, Ht.
    split; [|split; [done | split; by rewrite <- !app_assoc]].
    apply set_eq. intros x.
    rewrite elem_of_difference, !elem_of_union, !elem_of_singleton.
    split; [tauto|]. intros Hx. split; [by right|]. intros ->.
    apply Hout. by rewrite elem_of_union, elem_of_singleton.
  - exact Hlf.
  - exact Hrc.
  - exact Hopen.
  - exact Hopenlk.
  - rewrite Hf. apply in_after_create.
  - rewrite Hf. apply elem_of_union_r, in_after_create.
  - intros Heq. apply Hout. rewrite Heq. apply in_after_create.
Qed.

(** X14: when the log file opens, the lock marker names a file that is
    neither the log file, under any spelling, nor on disk, and the marker
    can be created, the lock is taken, and every way the locked part of the
    run can end, normally or with any exception, is followed by the removal
    of the marker and then by the notifier; the run ends with the outcome
    of the locked part, and leaves on disk what it found plus the log
    file. *)
Theorem X14_main_always_releases_and_notifies
    (E : Env) (args : Args) (w : world)
    (cfg : gmap string value) (lf lk rc : string) r1 w3 :
  load_config E (config args) w = (Ok cfg, w) →
  cfg !! "logfile" = Some (VStr lf) →
  cfg !! "lockfile" = Some (VStr lk) →
  cfg !! "email_recipient" = Some (VStr rc) →
  open_for_writing E lf = None →
  open_for_writing E lk = None →
  file_at E lk ({[resolve E lf]} ∪ w_files w) = false →
  pipeline E args cfg
    (mk_world ({[resolve E lk]} ∪ ({[resolve E lf]} ∪ w_files w)) (w_log w)
       (w_trace w ++ [EvCreate lk]))
  = (r1, w3) →
  ∃ evs w',
    main E args w = (r1, w')
    ∧ w_files w' = {[resolve E lf]} ∪ w_files w
    ∧ w_log w' = w_log w3
    ∧ w_trace w3 = w_trace w ++ [EvCreate lk] ++ evs
    ∧ w_trace w'
      = w_trace w ++ [EvCreate lk] ++ evs ++ [EvRemove lk]
        ++ (if which_mail E then [EvMail rc lf] else []).
Proof. apply main_releases. Qed.

Lemma X14_main_always_releases_and_notifies_witness :
  ∃ evs w',
    main env_german args_weekly w0
    = (fst (pipeline env_german args_weekly DEFAULT_CONFIG w_scenario_locked), w')
    ∧ w_files w' = {[log_path]} ∪ w_files w0
    ∧ w_log w' = w_log (snd (pipeline env_german args_weekly DEFAULT_CONFIG w_scenario_locked))
    ∧ w_trace (snd (pipeline env_german args_weekly DEFAULT_CONFIG w_scenario_locked))
      = w_trace w0 ++ [EvCreate lock_path] ++ evs
    ∧ w_trace w'
      = w_trace w0 ++ [EvCreate lock_path] ++ evs ++ [EvRemove lock_path]
        ++ (if which_mail env_german then [EvMail "admin@example.com" log_path] else []).
Proof.
  apply (X14_main_always_releases_and_notifies env_german args_weekly w0
           DEFAULT_CONFIG log_path lock_path "admin@example.com");
    vm_compute; reflexivity.
Defined.

Lemma quiet_refl (w : world) : quiet w w.
Proof. exists []. by rewrite app_nil_r. Qed.

Lemma quiet_trans (w1 w2 w3 : world) : quiet w1 w2 → quiet w2 w3 → quiet w1 w3.
Proof.
  intros (evs1 & Ht1 & Hn1) (evs2 & Ht2 & Hn2). exists (evs1 ++ evs2).
  by rewrite Ht2, Ht1, app_assoc, List.filter_app, Hn1, Hn2.
Qed.

Lemma quiet_one (w : world) (e : event) (files : gset string) log :
  is_destroy e = false → quiet w (mk_world files log (w_trace w ++ [e])).
Proof. intros He. exists [e]. simpl. by rewrite He. Qed.

Lemma quiet_same_trace (w w' : world) : w_trace w' = w_trace w → quiet w w'.
Proof. intros Ht. exists []. by rewrite app_nil_r. Qed.

Section Respects.

Context (R : world → world → Prop).
Hypothesis R_refl : ∀ w, R w w.
Hypothesis R_trans : ∀ w1 w2 w3, R w1 w2 → R w2 w3 → R w1 w3.

Lemma respects_ret {A} (a : A) : respects R (ret a).
Proof. intros w r w' [= <- <-]. apply R_refl. Qed.

Lemma respects_raise {A} (e : exn) : respects R (@raise A e).
Proof. intros w r w' [= <- <-]. apply R_refl. Qed.

(** [Q] is what is known of the value that [c] returns. *)
Lemma respects_bind {A B} (Q : A → Prop) (c : M A) (k : A → M B) :
  (∀ w r w', c w = (r, w') → R w w' ∧ ∀ a, r = Ok a → Q a) →
  (∀ a, Q a → respects R (k a)) →
  respects R (bind c k).
Proof.
  intros Hc Hk w r w' Hrun. unfold bind in Hrun.
  destruct (c w) as [[a|e] w1] eqn:Hcw; destruct (Hc _ _ _ Hcw) as [HR HQ].
  - eapply R_trans; [exact HR|]. eapply Hk; [by apply HQ | exact Hrun].
  - by simplify_eq.
Qed.

Lemma respects_try_finally {A} (body : M A) (fin : M unit) :
  respects R body → respects R fin → respects R (try_finally body fin).
Proof.
  intros Hb Hf w r w' Hrun. unfold try_finally in Hrun.
  destruct (body w) as [r1 w1] eqn:Hbw. destruct (fin w1) as [[[]|e] w2] eqn:Hfw;
    simplify_eq; eapply R_trans; eauto.
Qed.

End Respects.

Lemma getitem_quiet (d : gmap string value) (key : string) : respects quiet (getitem d key).
Proof.
  unfold getitem. destruct (d !! key);
    [apply respects_ret | apply respects_raise]; apply quiet_refl.
Qed.

Lemma release_quiet (E : Env) (v : value) : respects quiet (release E v).
Proof.
  intros w r w' H. unfold release, os_remove, raise in H.
  destruct v as [p|d]; [|simplify_eq; apply quiet_refl].
  destruct (file_at _ _ _); simplify_eq; [by apply quiet_one | apply quiet_refl].
Qed.

Lemma send_email_quiet (E : Env) (logfile recipient : value) :
  respects quiet (send_email E logfile recipient).
Proof.
  intros w r w' H. unfold send_email, bind, os_path_exists, emit, ret, raise in H.
  repeat case_match; simplify_eq; first [apply quiet_refl | by apply quiet_one].
Qed.

Lemma lock_or_exit_quiet (E : Env) (lockfile : value) (w : world) r w' :
  lock_or_exit E lockfile w = (r, w') →
  quiet w w' ∧ ∀ handle, r = Ok handle → handle = release E lockfile.
Proof.
  intros H. unfold lock_or_exit, bind, os_path_exists, open_w_close, logging,
    sys_exit, ret, raise in H.
  repeat case_match; simplify_eq;
    (split; [first [by apply quiet_one | by apply quiet_same_trace] | by intros ? [=]]).
Qed.

(** X15: a run with [--dry-run] never issues a destroy invocation,
    whatever the configuration, the state of the lock, the answers of the
    tool and the way the run ends. *)
Theorem X15_dry_run_main_never_destroys
    (E : Env) (args : Args) (w : world) r w' :
  dry_run args = true →
  main E args w = (r, w') →
  ∃ evs, w_trace w' = w_trace w ++ evs ∧ List.filter is_destroy evs = [].
Proof.
  intros Hdry. revert w r w'. change (respects quiet (main E args)). unfold main.
  pose proof quiet_refl as Hr. pose proof quiet_trans as Htr.
  apply (respects_bind quiet Htr (λ _, True)).
  { intros w r w' H. apply load_config_world in H as ->. done. }
  intros cfg _. apply (respects_bind quiet Htr (λ _, True)).
  { intros w r w' H. split; [by eapply getitem_quiet | done]. }
  intros logfile _. apply (respects_bind quiet Htr (λ _, True)).
  { intros w r w' H. split; [|done]. apply quiet_same_trace.
    unfold logging_basicConfig, ret, raise in H.
    repeat case_match; by simplify_eq. }
  intros _ _. apply (respects_bind quiet Htr (λ _, True)).
  { intros w r w' H. split; [by eapply getitem_quiet | done]. }
  intros lockfile _.
  apply (respects_bind quiet Htr (λ handle, handle = release E lockfile)).
  { intros w r w'. apply lock_or_exit_quiet. }
  intros handle ->. apply (respects_try_finally quiet Hr Htr).
  - apply (respects_bind quiet Htr (λ _, True)).
    { intros w r w' H. apply age_or_policy_world in H as ->. done. }
    intros age_days _ w r w' H. rewrite Hdry in H.
    by eapply cleanup_snapshots_dry_run_no_destroy.
  - apply (respects_bind quiet Htr (λ _, True)).
    { intros w r w' H. split; [by eapply release_quiet | done]. }
    intros _ _. apply (respects_bind quiet Htr (λ _, True)).
    { intros w r w' H. split; [by eapply getitem_quiet | done]. }
    intros logfile' _. apply (respects_bind quiet Htr (λ _, True)).
    { intros w r w' H. split; [by eapply getitem_quiet | done]. }
    intros recipient _. apply send_email_quiet.
Qed.

Lemma X15_dry_run_main_never_destroys_witness :
  ∃ evs, w_trace (snd (main env_scenario args_dry w0)) = w_trace w0 ++ evs
         ∧ List.filter is_destroy evs = [].
Proof.
  apply (X15_dry_run_main_never_destroys env_scenario args_dry w0
           (fst (main env_scenario args_dry w0)) (snd (main env_scenario args_dry w0)));
    [reflexivity | vm_compute; reflexivity].
Defined.

(** The same run without [--dry-run] destroys two snapshots. *)
Example live_main_scenario :
  fst (main env_scenario args_weekly w0) = Ok tt
  ∧ exit_status (fst (main env_scenario args_weekly w0)) = 0
  ∧ count_destroy (w_trace (snd (main env_scenario args_weekly w0))) = 2
  ∧ count_destroy (w_trace (snd (main env_scenario args_dry w0))) = 0.
Proof. vm_compute. repeat split. Qed.

(** X16: the policy map is read only when no non-zero [--age] is given.
    With a non-zero [--age] the threshold is the flag, whatever the
    configuration holds.  Without one, a [retention_policies] entry that is
    a string instead of a mapping ends the run with [AttributeError] and
    exit status 1 before any command is issued; when the log file opens
    and the marker, absent so far, can be created, the lock is taken and
    released around it and the notifier still runs. *)
Theorem X16_policies_read_only_without_age
    (E : Env) (args : Args) (w : world)
    (cfg : gmap string value) (lf lk rc s : string) :
  (∀ a, age args = Some a → a ≠ 0 → age_or_policy args cfg w = (Ok a, w))
  ∧ (age args = None ∨ age args = Some 0 →
     load_config E (config args) w = (Ok cfg, w) →
     cfg !! "logfile" = Some (VStr lf) →
     cfg !! "lockfile" = Some (VStr lk) →
     cfg !! "email_recipient" = Some (VStr rc) →
     cfg !! "retention_policies" = Some (VStr s) →
     open_for_writing E lf = None →
     open_for_writing E lk = None →
     file_at E lk ({[resolve E lf]} ∪ w_files w) = false →
     ∃ w',
       main E args w = (Raise AttributeError, w')
       ∧ exit_status (@Raise unit AttributeError) = 1
       ∧ w_log w' = w_log w
       ∧ w_trace w'
         = w_trace w ++ [EvCreate lk; EvRemove lk]
           ++ (if which_mail E then [EvMail rc lf] else [])).
Proof.
  split.
  - intros a Ha Hnz. by apply age_or_policy_override.
  - intros Hage Hload Hlf Hlk Hrc Hpol Hopen Hopenlk Hfree.
    set (w2 := mk_world ({[resolve E lk]} ∪ ({[resolve E lf]} ∪ w_files w)) (w_log w)
                 (w_trace w ++ [EvCreate lk])).
    assert (Hpipe : pipeline E args cfg w2 = (Raise AttributeError, w2)).
    { unfold pipeline, bind, age_or_policy, getitem.
      destruct Hage as [-> | ->]; simpl; by rewrite Hpol. }
    destruct (main_releases E args w cfg lf lk rc _ _ Hload Hlf Hlk Hrc Hopen Hopenlk
                Hfree Hpipe)
      as (evs & w' & Hmain & _ & Hlog & Ht2 & Ht).
    exists w'. split; [done|]. split; [done|]. split; [done|].
    simpl in Ht2. rewrite <- (app_nil_r (w_trace w ++ [EvCreate lk])) in Ht2 at 1.
    rewrite <- app_assoc in Ht2. apply app_inv_head in Ht2. simplify_eq/=.
    rewrite Ht. reflexivity.
Qed.

Lemma X16_policies_read_only_without_age_witness :
  age_or_policy (mk_args "weekly" (Some 10) false false None DEFAULT_CONFIG_PATH)
    (dict_update DEFAULT_CONFIG (or_empty override_bad_policies)) w_configured
  = (Ok 10, w_configured)
  ∧ ∃ w',
      main env_bad_policies args_weekly w_configured = (Raise AttributeError, w')
      ∧ exit_status (@Raise unit AttributeError) = 1
      ∧ w_log w' = w_log w_configured
      ∧ w_trace w'
        = w_trace w_configured ++ [EvCreate lock_path; EvRemove lock_path]
          ++ (if which_mail env_bad_policies
              then [EvMail "admin@example.com" log_path] else []).
Proof.
  split.
  - apply (proj1 (X16_policies_read_only_without_age env_bad_policies
                    (mk_args "weekly" (Some 10) false false None DEFAULT_CONFIG_PATH)
                    w_configured _ "" "" "" "") 10); [reflexivity | lia].
  - apply (proj2 (X16_policies_read_only_without_age env_bad_policies args_weekly
                    w_configured
                    (dict_update DEFAULT_CONFIG (or_empty override_bad_policies))
                    log_path lock_path "admin@example.com" "30"));
      try (vm_compute; reflexivity).
    by left.
Defined.

(** X20: a log file or a lock marker that cannot be opened ends the run
    with the exception of [open] and exit status 1, outside the [try]: when
    the log file, named by a non-empty string, does not open, nothing at
    all has happened; when the log file opens and the marker, absent so
    far, cannot be created, the log file is on disk and nothing else has
    happened.  In both cases no command is issued, nothing is removed and
    no mail is sent. *)
Theorem X20_unopenable_paths_end_the_run
    (E : Env) (args : Args) (w : world)
    (cfg : gmap string value) (lf lk : string) (err : oserror) :
  load_config E (config args) w = (Ok cfg, w) →
  cfg !! "logfile" = Some (VStr lf) →
  cfg !! "lockfile" = Some (VStr lk) →
  (lf ≠ "" →
   open_for_writing E lf = Some err →
   main E args w = (Raise (exn_of_oserror err), w)
   ∧ exit_status (@Raise unit (exn_of_oserror err)) = 1)
  ∧ (open_for_writing E lf = None →
     file_at E lk ({[resolve E lf]} ∪ w_files w) = false →
     open_for_writing E lk = Some err →
     ∃ w',
       main E args w = (Raise (exn_of_oserror err), w')
       ∧ exit_status (@Raise unit (exn_of_oserror err)) = 1
       ∧ w_files w' = {[resolve E lf]} ∪ w_files w
       ∧ w_log w' = w_log w
       ∧ w_trace w' = w_trace w).
Proof.
  intros Hload Hlf Hlk. split.
  - intros Hne Herr. split; [by eapply main_log_refused | by destruct err].
  - intros Hopen Hfree Herr. eexists.
    split; [by eapply main_lock_refused|]. split; [by destruct err | done].
Qed.

Lemma X20_unopenable_paths_end_the_run_witness :
  (main env_no_logdir args_weekly w0 = (Raise FileNotFoundError, w0)
   ∧ exit_status (@Raise unit FileNotFoundError) = 1)
  ∧ (∃ w',
       main env_readonly args_weekly w0 = (Raise PermissionError, w')
       ∧ exit_status (@Raise unit PermissionError) = 1
       ∧ w_files w' = {[log_path]} ∪ w_files w0
       ∧ w_log w' = w_log w0
       ∧ w_trace w' = w_trace w0).
Proof.
  split.
  - apply (proj1 (X20_unopenable_paths_end_the_run env_no_logdir args_weekly w0
                    DEFAULT_CONFIG log_path lock_path ENOENT eq_refl eq_refl eq_refl)).
    + discriminate.
    + reflexivity.
  - apply (proj2 (X20_unopenable_paths_end_the_run env_readonly args_weekly w0
                    DEFAULT_CONFIG log_path lock_path EACCES eq_refl eq_refl eq_refl));
      reflexivity.
Defined.

(** A lock marker that is a second spelling of the log file is found in
    place as soon as the log file is opened: the run is refused. *)
Example lock_spelled_as_log_file :
  main env_alias args_weekly w_configured
  = (Raise (SystemExit 1),
     mk_world ({[log_path]} ∪ {[DEFAULT_CONFIG_PATH]})
       [(ERROR, "Lock file exists. Script already running.")] []).
Proof. vm_compute. reflexivity. Qed.

(** With the empty string as log file the records go to the standard
    error stream: no log file appears, and the notifier, which finds no
    file to mail, sends nothing. *)
Example empty_log_file_name :
  fst (main env_stderr args_weekly w_configured) = Ok tt
  ∧ w_files (snd (main env_stderr args_weekly w_configured)) = {[DEFAULT_CONFIG_PATH]}
  ∧ w_trace (snd (main env_stderr args_weekly w_configured))
    = [EvCreate lock_path; EvCmd list_cmd (ok ""); EvRemove lock_path].
Proof. vm_compute. repeat split. Qed.

(** ** Reading the listing *)

Lemma sapp_assoc (a b c : string) : (a +:+ b) +:+ c = a +:+ (b +:+ c).
Proof. induction a as [|x a IH]; [done|]. by rewrite !app_cons, IH. Qed.

Lemma sapp_empty_r (a : string) : a +:+ "" = a.
Proof. induction a as [|x a IH]; [done|]. by rewrite app_cons, IH. Qed.

Lemma all_chars_app (P : ascii → bool) (a b : string) :
  all_chars P (a +:+ b) = all_chars P a && all_chars P b.
Proof.
  induction a as [|x a IH]; [done|]. rewrite app_cons. simpl.
  by rewrite IH, andb_assoc.
Qed.

Lemma all_chars_impl (P Q : ascii → bool) (s : string) :
  (∀ c, P c = true → Q c = true) → all_chars P s = true → all_chars Q s = true.
Proof.
  intros HPQ. induction s as [|c s IH]; simpl; [done|].
  intros [Hc Hs]%andb_true_iff. by rewrite (HPQ c Hc), IH.
Qed.

Lemma linebreak_is_space (c : ascii) : Str.is_linebreak c = true → Str.is_space c = true.
Proof.
  unfold Str.is_linebreak, Str.is_space, Str.between.
  rewrite !orb_true_iff, !andb_true_iff, !Nat.leb_le, !Nat.eqb_eq. lia.
Qed.

Lemma cr_is_linebreak (c : ascii) : Str.is_cr c = true → Str.is_linebreak c = true.
Proof.
  unfold Str.is_linebreak, Str.is_cr, Str.between.
  rewrite !orb_true_iff, !andb_true_iff, !Nat.leb_le, !Nat.eqb_eq. lia.
Qed.

Lemma tab_is_space (c : ascii) : Str.is_tab c = true → Str.is_space c = true.
Proof.
  unfold Str.is_tab, Str.is_space, Str.between.
  rewrite !orb_true_iff, !andb_true_iff, !Nat.leb_le, !Nat.eqb_eq. lia.
Qed.

Lemma rstrip_cons (c : ascii) (s : string) :
  Str.rstrip (String c s)
  = match Str.rstrip s with
    | EmptyString => if Str.is_space c then EmptyString else String c EmptyString
    | r => String c r
    end.
Proof. reflexivity. Qed.

(** What [rstrip] removes is a suffix. *)
Lemma rstrip_prefix (s : string) : ∃ t, s = Str.rstrip s +:+ t.
Proof.
  induction s as [|c s [t Ht]]; [by exists ""|]. rewrite rstrip_cons.
  destruct (Str.rstrip s) as [|c' r] eqn:Hr.
  - destruct (Str.is_space c); [by eexists | exists s; by rewrite app_cons].
  - exists t. rewrite app_cons. by rewrite <- Ht.
Qed.

Lemma rstrip_app_empty (a b : string) :
  Str.rstrip b = "" → Str.rstrip (a +:+ b) = Str.rstrip a.
Proof.
  intros Hb. induction a as [|c a IH]; [done|].
  by rewrite app_cons, !rstrip_cons, IH.
Qed.

Lemma sapp_not_empty (a b : string) : b ≠ "" → a +:+ b ≠ "".
Proof. by destruct a, b. Qed.

Lemma rstrip_app_nonempty (a b : string) :
  Str.rstrip b ≠ "" → Str.rstrip (a +:+ b) = a +:+ Str.rstrip b.
Proof.
  intros Hb. induction a as [|c a IH]; [done|].
  rewrite !app_cons, rstrip_cons, IH.
  pose proof (sapp_not_empty a _ Hb). by destruct (a +:+ Str.rstrip b).
Qed.

Lemma rstrip_no_space (s : string) :
  all_chars (λ c, negb (Str.is_space c)) s = true → Str.rstrip s = s.
Proof.
  induction s as [|c s IH]; [done|]. simpl all_chars.
  intros [Hc Hs]%andb_true_iff. rewrite rstrip_cons, IH by done.
  apply negb_true_iff in Hc. rewrite Hc. by destruct s.
Qed.

Lemma rstrip_head (c : ascii) (s : string) :
  Str.is_space c = false → Str.rstrip (String c s) ≠ "".
Proof. intros Hc. rewrite rstrip_cons, Hc. by destruct (Str.rstrip s). Qed.

Lemma rev_app_app (s acc : string) :
  String.rev_app s acc = String.rev_app s "" +:+ acc.
Proof.
  revert acc. induction s as [|c s IH]; intros acc; simpl; [done|].
  rewrite (IH (String c acc)), (IH (String c "")), sapp_assoc. done.
Qed.

Lemma rev_rev_app (l cur : string) :
  String.rev (String.rev_app l cur) = String.rev cur +:+ l.
Proof.
  revert cur. induction l as [|c l IH]; intros cur; simpl.
  - by rewrite sapp_empty_r.
  - rewrite IH. unfold String.rev. simpl. rewrite (rev_app_app cur), sapp_assoc. done.
Qed.

(** A stretch without line breaks is taken into the current line. *)
Lemma splitlines_go_line (l cur rest : string) :
  one_line l = true →
  Str.splitlines_go cur (l +:+ rest) = Str.splitlines_go (String.rev_app l cur) rest.
Proof.
  revert cur. induction l as [|c l IH]; intros cur; [done|].
  unfold one_line. simpl all_chars. intros [Hc Hl]%andb_true_iff.
  apply negb_true_iff in Hc. rewrite app_cons. simpl.
  destruct (Str.is_cr c) eqn:Hcr.
  { apply cr_is_linebreak in Hcr. congruence. }
  rewrite Hc. by apply IH.
Qed.

Lemma splitlines_go_newline (cur rest : string) :
  Str.splitlines_go cur (NL +:+ rest) = String.rev cur :: Str.splitlines_go "" rest.
Proof. reflexivity. Qed.

Lemma splitlines_one_line (l : string) :
  one_line l = true → l ≠ "" → Str.splitlines l = [l].
Proof.
  intros Hl Hne. unfold Str.splitlines.
  rewrite <- (sapp_empty_r l) at 1. rewrite splitlines_go_line by done.
  simpl. destruct (String.rev_app l "") eqn:Hr.
  - pose proof (rev_rev_app l "") as H. rewrite Hr in H.
    change ("" = l) in H. congruence.
  - rewrite <- Hr. by rewrite rev_rev_app.
Qed.

Lemma first_field_clean (snap r : string) :
  all_chars (λ c, negb (Str.is_space c)) snap = true →
  Str.first_field snap = snap ∧ Str.first_field (snap +:+ TAB +:+ r) = snap.
Proof.
  induction snap as [|c s IH]; [done|]. simpl all_chars.
  intros [Hc Hs]%andb_true_iff. apply negb_true_iff in Hc.
  rewrite app_cons. simpl. destruct (Str.is_tab c) eqn:Ht.
  { apply tab_is_space in Ht. congruence. }
  destruct (IH Hs) as [-> ->]. done.
Qed.

Lemma render_cons (snap rest : string) (rows : list (string * string)) :
  render_listing ((snap, rest) :: rows)
  = (snap +:+ TAB +:+ rest) +:+ NL +:+ render_listing rows.
Proof. simpl. by rewrite !sapp_assoc. Qed.

Lemma clean_inv (snap : string) :
  clean snap = true →
  ∃ c s, snap = String c s ∧ Str.is_space c = false
         ∧ all_chars (λ c, negb (Str.is_space c)) snap = true.
Proof.
  unfold clean. intros [Hne Hall]%andb_true_iff. destruct snap as [|c s]; [done|].
  exists c, s. split; [done|]. split; [|done].
  simpl in Hall. apply andb_true_iff in Hall as [Hc _]. by apply negb_true_iff.
Qed.

Lemma line_one_line (snap rest : string) :
  clean snap = true → one_line rest = true →
  one_line (snap +:+ TAB +:+ rest) = true.
Proof.
  intros (c & s & _ & _ & Hall)%clean_inv Hrest. unfold one_line in *.
  rewrite !all_chars_app, Hrest, andb_true_r.
  eapply all_chars_impl; [|exact Hall]. intros x Hx.
  apply negb_true_iff. apply negb_true_iff in Hx.
  destruct (Str.is_linebreak x) eqn:Hl; [|done].
  apply linebreak_is_space in Hl. congruence.
Qed.

(** The last line of the listing after [strip]: still a line, and its first
    field is still the identifier. *)
Lemma line_rstrip (snap rest : string) :
  clean snap = true → one_line rest = true →
  let l := Str.rstrip (snap +:+ TAB +:+ rest) in
  l ≠ "" ∧ one_line l = true ∧ Str.first_field l = snap.
Proof.
  intros Hclean Hrest l. pose proof (line_one_line snap rest Hclean Hrest) as Hline.
  destruct (clean_inv snap Hclean) as (c & s & -> & Hc & Hall).
  split; [apply rstrip_head, Hc|]. split.
  - destruct (rstrip_prefix (String c s +:+ TAB +:+ rest)) as [t Ht]. fold l in Ht.
    unfold one_line in *. rewrite Ht, all_chars_app in Hline.
    by apply andb_true_iff in Hline as [? _].
  - subst l. destruct (Str.rstrip (TAB +:+ rest)) as [|c' r] eqn:Hx.
    + rewrite rstrip_app_empty, rstrip_no_space by done.
      by apply (first_field_clean (String c s) "").
    + rewrite rstrip_app_nonempty by (rewrite Hx; done). rewrite Hx.
      change (TAB +:+ rest) with (String (ascii_of_nat 9) rest) in Hx.
      rewrite rstrip_cons in Hx.
      assert (c' = ascii_of_nat 9) as ->.
      { destruct (Str.rstrip rest); [|by simplify_eq]. by destruct (Str.is_space _). }
      by apply (first_field_clean (String c s) r).
Qed.

Lemma listing_read_back (rows : list (string * string)) :
  Forall (λ row, row_ok row = true) rows →
  rows ≠ [] →
  Str.rstrip (render_listing rows) ≠ ""
  ∧ Str.first_field <$> Str.splitlines (Str.rstrip (render_listing rows)) = rows.*1.
Proof.
  induction 1 as [|[snap rest] rows Hrow Hrows IH]; [done|]. intros _.
  unfold row_ok in Hrow. simpl in Hrow. apply andb_true_iff in Hrow as [Hclean Hrest].
  rewrite render_cons. destruct rows as [|row rows].
  - change (render_listing []) with "". rewrite sapp_empty_r.
    rewrite rstrip_app_empty by reflexivity.
    destruct (line_rstrip snap rest Hclean Hrest) as (Hne & Hone & Hff).
    split; [done|]. rewrite splitlines_one_line by done. simpl. by rewrite Hff.
  - destruct IH as [Hne Hids]; [done|].
    rewrite <- sapp_assoc, rstrip_app_nonempty by done.
    split; [by apply sapp_not_empty|].
    rewrite sapp_assoc. unfold Str.splitlines in *.
    rewrite splitlines_go_line by by apply line_one_line.
    rewrite splitlines_go_newline, rev_rev_app, fmap_cons, Hids.
    change (String.rev "" +:+ ?x) with x.
    destruct (clean_inv snap Hclean) as (c & s & _ & _ & Hall).
    rewrite (proj2 (first_field_clean snap rest Hall)). reflexivity.
Qed.

Lemma lstrip_render (rows : list (string * string)) :
  Forall (λ row, row_ok row = true) rows →
  Str.lstrip (render_listing rows) = render_listing rows.
Proof.
  intros [|[snap rest] rows' Hrow _]; [done|].
  unfold row_ok in Hrow. apply andb_true_iff in Hrow as [Hclean _].
  destruct (clean_inv _ Hclean) as (c & s & Hs & Hc & _). simpl in Hs. subst snap.
  simpl. by rewrite Hc.
Qed.

(** X17: the enumerator reads back what the tool prints: for a listing
    with one row per snapshot (an identifier without white space, a tab,
    other fields, a line feed) the identifiers it filters are exactly the
    identifiers of the rows, in order, so its result is the rows'
    identifiers that pass the test. *)
Theorem X17_listing_read_back
    (E : Env) (pattern : string) (pool : option string) (w : world)
    (rows : list (string * string)) :
  Forall (λ row, row_ok row = true) rows →
  ext_tool E (w_trace w) list_cmd = ok (render_listing rows) →
  identifiers (Str.strip (render_listing rows)) = rows.*1
  ∧ ∃ w', load_snapshots E pattern pool w
          = (Ok (List.filter (keeps pattern pool) rows.*1), w').
Proof.
  intros Hrows Htool.
  assert (Hids : identifiers (Str.strip (render_listing rows)) = rows.*1).
  { unfold identifiers, Str.strip. rewrite lstrip_render by done.
    destruct rows as [|row rows']; [done|]. by apply listing_read_back. }
  split; [exact Hids|]. eexists.
  rewrite load_snapshots_ok by (by rewrite Htool). rewrite Htool. simpl stdout.
  by rewrite Hids.
Qed.

Lemma X17_listing_read_back_witness :
  identifiers (Str.strip (render_listing rows_scenario)) = rows_scenario.*1
  ∧ ∃ w', load_snapshots env_rows "2025" None w0
          = (Ok (List.filter (keeps "2025" None) rows_scenario.*1), w').
Proof.
  apply (X17_listing_read_back env_rows "2025" None w0 rows_scenario).
  - repeat constructor.
  - reflexivity.
Defined.

Example listing_read_back_2025 :
  fst (load_snapshots env_rows "2025" None w0) = Ok [snap_10; snap_30].
Proof. vm_compute. reflexivity. Qed.

(** ** How a run can end *)

Lemma raises_only_bind {A B} (Q : exn → Prop) (Qv : A → Prop) (c : M A) (k : A → M B) :
  raises_only Q c →
  (∀ w a w', c w = (Ok a, w') → Qv a) →
  (∀ a, Qv a → raises_only Q (k a)) →
  raises_only Q (bind c k).
Proof.
  intros Hc Hv Hk w e w' Hrun. unfold bind in Hrun.
  destruct (c w) as [[a|e1] w1] eqn:Hcw.
  - eapply Hk; [by eapply Hv | exact Hrun].
  - simplify_eq. by eapply Hc.
Qed.

Lemma raises_only_try_finally {A} (Q : exn → Prop) (body : M A) (fin : M unit) :
  raises_only Q body → raises_only Q fin → raises_only Q (try_finally body fin).
Proof.
  intros Hb Hf w e w' Hrun. unfold try_finally in Hrun.
  destruct (body w) as [r1 w1] eqn:Hbw. destruct (fin w1) as [[[]|e2] w2] eqn:Hfw.
  - simplify_eq. by eapply Hb.
  - simplify_eq. by eapply Hf.
Qed.

Lemma expected_unless (e : exn) :
  match e with
  | KeyError => False
  | SystemExit n => n = 1
  | _ => True
  end → expected e.
Proof. destruct e; intros H; split; try done; intros ? ?; by simplify_eq. Qed.

Lemma getitem_present (d : gmap string value) (key : string) :
  is_Some (d !! key) → raises_only expected (getitem d key).
Proof. intros [v Hv] w e w' H. unfold getitem in H. rewrite Hv in H. done. Qed.

Lemma cleanup_snapshots_raises
    (E : Env) (pattern : string) (age_days : Z) (recursive dry_run : bool)
    (pool : option string) (cfg : gmap string value) :
  raises_only expected (cleanup_snapshots E pattern age_days recursive dry_run pool cfg).
Proof.
  intros w e w' Hrun. unfold cleanup_snapshots, bind in Hrun.
  destruct (decide (returncode (ext_tool E (w_trace w) list_cmd) = 0)) as [Hcode|Hcode].
  - rewrite load_snapshots_ok in Hrun by exact Hcode.
    destruct (List.filter _ _) as [|snap snaps]; [done|].
    unfold destroy_snapshots, bind in Hrun.
    destruct (for_each _ _ 0 _) as [[n|e1] w1] eqn:Hloop; [done|].
    simplify_eq. apply cleanup_loop_raises_value_error in Hloop as ->.
    by apply expected_unless.
  - rewrite load_snapshots_failed in Hrun by exact Hcode. simplify_eq.
    by apply expected_unless.
Qed.

(** X18: once the command line is parsed, the rest of the script ends
    with exit status 0 or 1, and with 0 exactly when it returns; whatever
    the configuration file holds, it never fails for a missing
    configuration key. *)
Theorem X18_exit_status_is_0_or_1 (E : Env) (args : Args) (w : world) r w' :
  main E args w = (r, w') →
  (exit_status r = 0 ∨ exit_status r = 1)
  ∧ (exit_status r = 0 ↔ r = Ok tt)
  ∧ r ≠ Raise KeyError.
Proof.
  intros Hrun.
  assert (Hexp : ∀ e, r = Raise e → expected e).
  { intros e ->. revert w e w' Hrun. change (raises_only expected (main E args)).
    unfold main.
    apply (raises_only_bind expected (λ cfg, ∀ k, k ∈ REQUIRED_KEYS → is_Some (cfg !! k))).
    { intros w e' w' H. unfold load_config, bind, os_path_exists, ret, raise in H.
      repeat case_match; simplify_eq. by apply expected_unless. }
    { intros w cfg w' H. by apply load_config_complete in H as [_ ?]. }
    intros cfg Hkeys.
    assert (Hget : ∀ k, k ∈ REQUIRED_KEYS → raises_only expected (getitem cfg k)).
    { intros k Hk. by apply getitem_present, Hkeys. }
    apply (raises_only_bind expected (λ _, True)); [|done|intros logfile _].
    { apply Hget. unfold REQUIRED_KEYS. set_solver. }
    apply (raises_only_bind expected (λ _, True)); [|done|intros _ _].
    { intros w e' w' H. unfold logging_basicConfig, ret, raise in H.
      repeat case_match; simplify_eq;
        first [by apply expected_unless
              | match goal with err : oserror |- _ => destruct err end;
                by apply expected_unless]. }
    apply (raises_only_bind expected (λ _, True)); [|done|intros lockfile _].
    { apply Hget. unfold REQUIRED_KEYS. set_solver. }
    apply (raises_only_bind expected (λ handle, handle = release E lockfile)).
    { intros w e' w' H. unfold lock_or_exit, bind, os_path_exists, open_w_close,
        logging, sys_exit, ret, raise in H.
      repeat case_match; simplify_eq;
        first [by apply expected_unless
              | match goal with err : oserror |- _ => destruct err end;
                by apply expected_unless]. }
    { intros w handle w' H. by apply lock_or_exit_quiet in H as [_ ?]; auto. }
    intros handle ->. apply raises_only_try_finally.
    - apply (raises_only_bind expected (λ _, True)); [|done|intros age_days _].
      { intros w e' w' H. unfold age_or_policy, bind in H.
        assert (Hpol : is_Some (cfg !! "retention_policies")).
        { apply Hkeys. unfold REQUIRED_KEYS. set_solver. }
        destruct Hpol as [v Hv]. unfold getitem in H. rewrite Hv in H.
        unfold get_policy_age, ret, raise in H.
        repeat case_match; simplify_eq; by apply expected_unless. }
      apply cleanup_snapshots_raises.
    - apply (raises_only_bind expected (λ _, True)); [|done|intros _ _].
      { intros w e' w' H. unfold release, os_remove, raise in H.
        repeat case_match; simplify_eq; by apply expected_unless. }
      apply (raises_only_bind expected (λ _, True)); [|done|intros logfile' _].
      { apply Hget. unfold REQUIRED_KEYS. set_solver. }
      apply (raises_only_bind expected (λ _, True)); [|done|intros recipient _].
      { apply Hget. unfold REQUIRED_KEYS. set_solver. }
      intros w e' w' H. unfold send_email, bind, os_path_exists, emit, ret, raise in H.
      repeat case_match; simplify_eq; by apply expected_unless. }
  destruct r as [[]|e].
  - split; [by left|]. split; [done|done].
  - destruct (Hexp e eq_refl) as [Hkey Hexit].
    assert (Hone : exit_status (@Raise unit e) = 1).
    { destruct e; try done. simpl. by apply Hexit. }
    rewrite Hone. split; [by right|]. split; [split; [lia | done]|]. congruence.
Qed.

Lemma X18_exit_status_is_0_or_1_witness :
  (exit_status (fst run_german) = 0 ∨ exit_status (fst run_german) = 1)
  ∧ (exit_status (fst run_german) = 0 ↔ fst run_german = Ok tt)
  ∧ fst run_german ≠ Raise KeyError.
Proof.
  apply (X18_exit_status_is_0_or_1 env_german args_weekly w0
           (fst run_german) (snd run_german)).
  vm_compute. reflexivity.
Defined.

(** ** Running a command *)

Lemma lstrip_head_not_space (s : string) : not_space (head_char (Str.lstrip s)) = true.
Proof.
  induction s as [|c s IH]; simpl; [done|].
  destruct (Str.is_space c) eqn:Hc; [exact IH | simpl; by rewrite Hc].
Qed.

Lemma rstrip_last_not_space (s : string) : not_space (last_char (Str.rstrip s)) = true.
Proof.
  induction s as [|c s IH]; [done|]. rewrite rstrip_cons.
  destruct (Str.rstrip s) as [|c' r] eqn:Hr.
  - destruct (Str.is_space c) eqn:Hc; simpl; [done | by rewrite Hc].
  - exact IH.
Qed.

Lemma rstrip_keeps_head (s : string) :
  not_space (head_char s) = true → not_space (head_char (Str.rstrip s)) = true.
Proof.
  destruct s as [|c s]; [done|]. rewrite rstrip_cons. simpl. intros Hc.
  destruct (Str.rstrip s); [|done]. destruct (Str.is_space c) eqn:Hsp; [done|].
  simpl. by rewrite Hsp.
Qed.

Lemma strip_trimmed (s : string) : trimmed (Str.strip s) = true.
Proof.
  unfold trimmed, Str.strip. apply andb_true_iff. split.
  - apply rstrip_keeps_head, lstrip_head_not_space.
  - apply rstrip_last_not_space.
Qed.

Lemma rstrip_fixed (s : string) : not_space (last_char s) = true → Str.rstrip s = s.
Proof.
  induction s as [|c s IH]; [done|]. rewrite rstrip_cons. destruct s as [|c' s].
  - simpl. intros Hc. apply negb_true_iff in Hc. by rewrite Hc.
  - intros Hl. rewrite IH by exact Hl. done.
Qed.

Lemma lstrip_fixed (s : string) : not_space (head_char s) = true → Str.lstrip s = s.
Proof.
  destruct s as [|c s]; [done|]. simpl. intros Hc.
  apply negb_true_iff in Hc. by rewrite Hc.
Qed.

Lemma lstrip_padding (a s : string) :
  all_chars Str.is_space a = true → Str.lstrip (a +:+ s) = Str.lstrip s.
Proof.
  induction a as [|c a IH]; [done|]. simpl all_chars.
  intros [Hc Ha]%andb_true_iff. rewrite app_cons. simpl. rewrite Hc. by apply IH.
Qed.

Lemma rstrip_all_space (b : string) :
  all_chars Str.is_space b = true → Str.rstrip b = "".
Proof.
  induction b as [|c b IH]; [done|]. simpl all_chars.
  intros [Hc Hb]%andb_true_iff. by rewrite rstrip_cons, IH, Hc.
Qed.

Lemma strip_padding (a s b : string) :
  all_chars Str.is_space a = true →
  all_chars Str.is_space b = true →
  trimmed s = true →
  Str.strip (a +:+ s +:+ b) = s.
Proof.
  intros Ha Hb [Hh Hl]%andb_true_iff. unfold Str.strip.
  rewrite lstrip_padding by done. destruct s as [|c s].
  - change ("" +:+ b) with b. by rewrite lstrip_all_space.
  - rewrite app_cons, lstrip_fixed by done. rewrite <- app_cons.
    rewrite rstrip_app_empty by by apply rstrip_all_space.
    by apply rstrip_fixed.
Qed.

(** X19: what [run_cmd] returns has no white space at either end, and an
    output that the tool pads with white space, such as a final line feed,
    is returned without the padding. *)
Theorem X19_run_cmd_trims (E : Env) (cmd : string) (w : world) (a s b : string) :
  all_chars Str.is_space a = true →
  all_chars Str.is_space b = true →
  trimmed s = true →
  stdout (ext_tool E (w_trace w) cmd) = a +:+ s +:+ b →
  ∃ err w',
    run_cmd E cmd w = (Ok (s, err, returncode (ext_tool E (w_trace w) cmd)), w')
    ∧ trimmed err = true
    ∧ w_trace w' = w_trace w ++ [EvCmd cmd (ext_tool E (w_trace w) cmd)].
Proof.
  intros Ha Hb Hs Hout. eexists _, _. unfold run_cmd. cbv zeta. rewrite Hout.
  rewrite strip_padding by done. split; [reflexivity|].
  split; [apply strip_trimmed | reflexivity].
Qed.

Lemma X19_run_cmd_trims_witness :
  ∃ err w',
    run_cmd env_scenario (creation_cmd snap_30) w0
    = (Ok ("Tue Jan 14 03:00 2025", err,
           returncode (ext_tool env_scenario (w_trace w0) (creation_cmd snap_30))), w')
    ∧ trimmed err = true
    ∧ w_trace w'
      = w_trace w0 ++ [EvCmd (creation_cmd snap_30)
                         (ext_tool env_scenario (w_trace w0) (creation_cmd snap_30))].
Proof.
  apply (X19_run_cmd_trims env_scenario (creation_cmd snap_30) w0 ""
           "Tue Jan 14 03:00 2025" NL); reflexivity.
Defined.
